(** * RootResolver: import resolution and environment bootstrap

    A shallow embedding of [src/include/wasm/RootResolver.h] (namespace
    [wasm]) and the properties of its operations [setUser], [setUp],
    [setUpStandardToolchain], [setUpEmscripten], [cleanUp] and [resolve].

    The C++ code mutates three things through references and pointers: the
    resolver object itself, the parsed [IR::Module] handed to [setUp], and the
    objects owned by the [Runtime::Compartment].  It also writes to the
    process logger.  The embedding threads one [World] holding these four
    through a small state-and-fault monad. *)

From stdpp Require Import gmap strings list fin_maps.

(** ** Machine integers *)

(** [const int]: 32-bit two's complement. *)
Definition int_of (z : Z) : Z := ((z + 2 ^ 31) `mod` 2 ^ 32 - 2 ^ 31)%Z.

(** The casts [(U64) e] and [(U32) e], and the conversion to [I32]. *)
Definition U64_of (z : Z) : Z := (z `mod` 2 ^ 64)%Z.
Definition U32_of (z : Z) : Z := (z `mod` 2 ^ 32)%Z.
Definition I32_of (z : Z) : Z := int_of z.

(** ** C strings *)

(** [s.c_str()] as a [const char*] argument of the logger: the characters
    of [s] before its first NUL.  A [std::string] argument is logged in
    full. *)
Fixpoint c_str (s : string) : string :=
  match s with
  | EmptyString => EmptyString
  | String c s' => if Ascii.eqb c Ascii.zero then EmptyString else String c (c_str s')
  end.

(** ** Constants of the header *)

(** Modelled from the spec: [IR::numBytesPerPage] is declared in the WAVM
    headers, which are not part of the repository; the spec fixes the page
    at 64 KiB. *)
Definition numBytesPerPage : Z := 65536.

Definition ONE_MB_PAGES : Z := int_of 16.
Definition ONE_GB_PAGES : Z := int_of (1024 * ONE_MB_PAGES).

Definition INITIAL_MEMORY_PAGES : Z := int_of (15 * ONE_MB_PAGES).
Definition MAX_MEMORY_PAGES : Z := ONE_GB_PAGES.

Definition EMSCRIPTEN_MIN_TABLE_ELEMS : Z := int_of 40000000.
Definition EMSCRIPTEN_MAX_TABLE_ELEMS : Z := int_of 60000000.
Definition INITIAL_EMSCRIPTEN_PAGES : Z := int_of (1024 * ONE_MB_PAGES).
Definition MAX_EMSCRIPTEN_PAGES : Z := int_of (2048 * ONE_GB_PAGES).
Definition EMSCRIPTEN_STACKTOP : Z := int_of (64 * numBytesPerPage).
Definition EMSCRIPTEN_STACK_MAX : Z := int_of (256 * numBytesPerPage).

Definition minStaticEmscriptenMemoryPages : Z := 128.

(** [enum ErrNo]. *)
Definition einval : Z := 22.

(** [enum class ioStreamVMHandle] with its underlying values. *)
Inductive ioStreamVMHandle := StdErr | StdIn | StdOut.

Definition ioStreamVMHandle_value (h : ioStreamVMHandle) : Z :=
  match h with StdErr => 1 | StdIn => 2 | StdOut => 3 end.

(** ** [struct MutableGlobals]

    Five scalar fields, in declaration order
    [U32 DYNAMICTOP_PTR; F64 tempDoublePtr; I32 _stderr; I32 _stdin; I32 _stdout],
    laid out with natural alignment (the 8-byte [F64] is aligned to 8, the
    struct is padded to a multiple of 8). *)
Module MutableGlobals.
Definition address : Z := 63 * numBytesPerPage.

Definition offset_DYNAMICTOP_PTR : Z := 0.
Definition offset_tempDoublePtr : Z := 8.
Definition offset__stderr : Z := 16.
Definition offset__stdin : Z := 20.
Definition offset__stdout : Z := 24.
Definition sizeof : Z := 32.
End MutableGlobals.

(** ** The parsed module ([IR::Module]), as far as the resolver touches it *)

Record SizeConstraints := { size_min : Z; size_max : Z }.

Record MemoryType := { memory_isShared : bool; memory_size : SizeConstraints }.

Inductive ReferenceType := funcref | anyref.

Record TableType := {
  table_elementType : ReferenceType;
  table_isShared : bool;
  table_size : SizeConstraints
}.

Record Import (T : Type) := {
  import_type : T;
  import_moduleName : string;
  import_exportName : string
}.
Arguments import_type {T} _.
Arguments import_moduleName {T} _.
Arguments import_exportName {T} _.

Record MemoryDef := { memdef_type : MemoryType }.
Record TableDef := { tabdef_type : TableType }.

Record IndexSpace (D T : Type) := { imports : list (Import T); defs : list D }.
Arguments imports {D T} _.
Arguments defs {D T} _.

Record IRModule := {
  memories : IndexSpace MemoryDef MemoryType;
  tables : IndexSpace TableDef TableType
}.

(** Field assignments [x.type.size.min = v] and [x.type.size.max = v]. *)
Definition set_min (v : Z) (s : SizeConstraints) : SizeConstraints :=
  {| size_min := v; size_max := size_max s |}.
Definition set_max (v : Z) (s : SizeConstraints) : SizeConstraints :=
  {| size_min := size_min s; size_max := v |}.

Definition memory_with_size (f : SizeConstraints → SizeConstraints)
    (t : MemoryType) : MemoryType :=
  {| memory_isShared := memory_isShared t; memory_size := f (memory_size t) |}.

Definition table_with_size (f : SizeConstraints → SizeConstraints)
    (t : TableType) : TableType :=
  {| table_elementType := table_elementType t;
     table_isShared := table_isShared t;
     table_size := f (table_size t) |}.

Definition import_with_type {T} (f : T → T) (i : Import T) : Import T :=
  {| import_type := f (import_type i);
     import_moduleName := import_moduleName i;
     import_exportName := import_exportName i |}.

Definition memdef_with_type (f : MemoryType → MemoryType) (d : MemoryDef) : MemoryDef :=
  {| memdef_type := f (memdef_type d) |}.

Definition with_memory_defs (l : list MemoryDef) (m : IRModule) : IRModule :=
  {| memories := {| imports := imports (memories m); defs := l |};
     tables := tables m |}.

Definition with_memory_imports (l : list (Import MemoryType)) (m : IRModule) : IRModule :=
  {| memories := {| imports := l; defs := defs (memories m) |};
     tables := tables m |}.

Definition with_table_imports (l : list (Import TableType)) (m : IRModule) : IRModule :=
  {| memories := memories m;
     tables := {| imports := l; defs := defs (tables m) |} |}.

(** ** Linear memory contents: little-endian scalar stores and loads *)

Fixpoint storeBytes (n : nat) (addr v : Z) (bytes : gmap Z Z) : gmap Z Z :=
  match n with
  | O => bytes
  | S n' => storeBytes n' (addr + 1) (Z.shiftr v 8) (<[addr := Z.land v 255]> bytes)
  end.

Fixpoint loadBytes (n : nat) (addr : Z) (bytes : gmap Z Z) : Z :=
  match n with
  | O => 0
  | S n' => Z.lor (default 0%Z (bytes !! addr))
                  (Z.shiftl (loadBytes n' (addr + 1) bytes) 8)
  end.

(** ** Runtime objects and the resolver state *)

(** A [Runtime::Object*]: the index of the object in its compartment;
    [nullptr] is [None] of [option ptr]. *)
Abbreviation ptr := nat (only parsing).

Record Memory := {
  memoryType : MemoryType;
  memoryDebugName : string;
  memoryNumPages : Z;
  memoryBytes : gmap Z Z
}.

Definition memory_with_bytes (f : gmap Z Z → gmap Z Z) (m : Memory) : Memory :=
  {| memoryType := memoryType m; memoryDebugName := memoryDebugName m;
     memoryNumPages := memoryNumPages m; memoryBytes := f (memoryBytes m) |}.

Record Table := { tableType : TableType; tableDebugName : string }.

Record ModuleInstance := {
  instanceDebugName : string;
  exportMap : gmap string ptr
}.

(** [logger->error(fmt, args...)]: the format string and its arguments. *)
Record LogRecord := error { log_format : string; log_args : list string }.

Record RootResolver := {
  isEmscripten : bool;
  envModule : option ptr;
  emEnvModule : option ptr;
  emAsm2wasmModule : option ptr;
  emGlobalModule : option ptr;
  user : string
}.

(** What an execution step can run into that C++ leaves undefined or that
    the runtime traps on. *)
Inductive Fault :=
  | VectorOutOfRange   (* [v[i]] with [i >= v.size()] *)
  | NullPointer        (* a null instance or object pointer dereferenced *)
  | WrongObjectKind    (* an object used as a kind it is not *)
  | MemoryOutOfBounds. (* a memory reference outside the committed pages *)

Section Resolver.

(** The parts of WAVM and of the intrinsic-module provider that the header
    only declares: the host definitions an intrinsic module holds, the
    declared types of imports, the run-time type test and the printers. *)
Context {Intrinsic ExternType : Type}.

Inductive RuntimeObject :=
  | ObjMemory (m : Memory)
  | ObjTable (t : Table)
  | ObjInstance (mi : ModuleInstance)
  | ObjIntrinsic (name : string) (i : Intrinsic).

Record World := {
  resolver : RootResolver;
  module : IRModule;
  compartment : list RuntimeObject;
  logger : list LogRecord
}.

Context (isA : RuntimeObject → ExternType → bool).
Context (getObjectType : RuntimeObject → ExternType).
Context (asString : ExternType → string).
Context (getIntrinsicModule_env : gmap string Intrinsic).
Context (getIntrinsicModule_emEnv : gmap string Intrinsic).
Context (getIntrinsicModule_emAsm2wasm : gmap string Intrinsic).
Context (getIntrinsicModule_emGlobal : gmap string Intrinsic).

(** *** The monad *)

Inductive Outcome (A : Type) :=
  | Ok (a : A) (w : World)
  | Crash (f : Fault) (w : World).
Arguments Ok {A} _ _.
Arguments Crash {A} _ _.

Definition M (A : Type) : Type := World → Outcome A.

#[local] Instance M_ret : MRet M := λ A a w, Ok a w.

#[local] Instance M_bind : MBind M := λ A B k m w,
  match m w with
  | Ok a w' => k a w'
  | Crash f w' => Crash f w'
  end.

Definition crash {A} (f : Fault) : M A := λ w, Crash f w.

Definition gets {A} (f : World → A) : M A := λ w, Ok (f w) w.

Definition modify (f : World → World) : M unit := λ w, Ok () (f w).

(** Reading a data member of the resolver. *)
Definition member {A} (f : RootResolver → A) : M A := gets (λ w, f (resolver w)).

(** The world in which an execution ended, normally or not. *)
Definition final {A} (o : Outcome A) : World :=
  match o with Ok _ w => w | Crash _ w => w end.

Definition completed {A} (o : Outcome A) : bool :=
  match o with Ok _ _ => true | Crash _ _ => false end.

(** *** Field updates *)

Definition with_resolver (f : RootResolver → RootResolver) (w : World) : World :=
  {| resolver := f (resolver w); module := module w;
     compartment := compartment w; logger := logger w |}.

Definition with_module (f : IRModule → IRModule) (w : World) : World :=
  {| resolver := resolver w; module := f (module w);
     compartment := compartment w; logger := logger w |}.

Definition with_compartment (f : list RuntimeObject → list RuntimeObject)
    (w : World) : World :=
  {| resolver := resolver w; module := module w;
     compartment := f (compartment w); logger := logger w |}.

Definition with_logger (f : list LogRecord → list LogRecord) (w : World) : World :=
  {| resolver := resolver w; module := module w;
     compartment := compartment w; logger := f (logger w) |}.

Definition set_isEmscripten (b : bool) (r : RootResolver) : RootResolver :=
  {| isEmscripten := b; envModule := envModule r; emEnvModule := emEnvModule r;
     emAsm2wasmModule := emAsm2wasmModule r; emGlobalModule := emGlobalModule r;
     user := user r |}.

Definition set_envModule (p : option ptr) (r : RootResolver) : RootResolver :=
  {| isEmscripten := isEmscripten r; envModule := p; emEnvModule := emEnvModule r;
     emAsm2wasmModule := emAsm2wasmModule r; emGlobalModule := emGlobalModule r;
     user := user r |}.

Definition set_emEnvModule (p : option ptr) (r : RootResolver) : RootResolver :=
  {| isEmscripten := isEmscripten r; envModule := envModule r; emEnvModule := p;
     emAsm2wasmModule := emAsm2wasmModule r; emGlobalModule := emGlobalModule r;
     user := user r |}.

Definition set_emAsm2wasmModule (p : option ptr) (r : RootResolver) : RootResolver :=
  {| isEmscripten := isEmscripten r; envModule := envModule r;
     emEnvModule := emEnvModule r; emAsm2wasmModule := p;
     emGlobalModule := emGlobalModule r; user := user r |}.

Definition set_emGlobalModule (p : option ptr) (r : RootResolver) : RootResolver :=
  {| isEmscripten := isEmscripten r; envModule := envModule r;
     emEnvModule := emEnvModule r; emAsm2wasmModule := emAsm2wasmModule r;
     emGlobalModule := p; user := user r |}.

Definition set_user (u : string) (r : RootResolver) : RootResolver :=
  {| isEmscripten := isEmscripten r; envModule := envModule r;
     emEnvModule := emEnvModule r; emAsm2wasmModule := emAsm2wasmModule r;
     emGlobalModule := emGlobalModule r; user := u |}.

(** *** Runtime primitives (WAVM) *)

(** [new] of an object in the compartment: it gets the next free index. *)
Definition alloc (o : RuntimeObject) : M ptr :=
  λ w, Ok (length (compartment w)) (with_compartment (λ h, h ++ [o]) w).

Definition deref (p : ptr) : M RuntimeObject :=
  λ w, match compartment w !! p with
       | Some o => Ok o w
       | None => Crash NullPointer w
       end.

Definition logged (fmt : string) (args : list string) (w : World) : World :=
  with_logger (λ l, l ++ [error fmt args]) w.

Definition log_error (fmt : string) (args : list string) : M unit :=
  modify (logged fmt args).

(** [Runtime::createMemory]: the new memory has its minimum committed and
    reads as zero.  Allocation failure is not modelled. *)
Definition createMemory (type : MemoryType) (debugName : string) : M ptr :=
  alloc (ObjMemory {| memoryType := type; memoryDebugName := debugName;
                      memoryNumPages := size_min (memory_size type);
                      memoryBytes := ∅ |}).

Definition createTable (type : TableType) (debugName : string) : M ptr :=
  alloc (ObjTable {| tableType := type; tableDebugName := debugName |}).

(** [Intrinsics::instantiateModule]: the instance is created first, then
    one object per intrinsic, each exported under its name; the extra
    exports are set last and so take precedence.  [instanceObjects] lists
    what the call adds when the compartment holds [base] objects. *)
Definition instanceObjects (intrinsics : gmap string Intrinsic)
    (debugName : string) (extraExports : gmap string ptr) (base : nat)
    : list RuntimeObject :=
  let entries := map_to_list intrinsics in
  let objects := (λ e : string * Intrinsic, ObjIntrinsic e.1 e.2) <$> entries in
  let exports : gmap string ptr :=
    list_to_map (zip (entries.*1) (seq (S base) (length entries))) in
  ObjInstance {| instanceDebugName := debugName;
                 exportMap := extraExports ∪ exports |} :: objects.

Definition instantiateModule (intrinsics : gmap string Intrinsic)
    (debugName : string) (extraExports : gmap string ptr) : M ptr :=
  λ w, Ok (length (compartment w))
          (with_compartment
             (λ h, h ++ instanceObjects intrinsics debugName extraExports (length h)) w).

(** [Runtime::getInstanceExport]: a map lookup in the instance's exports. *)
Definition getInstanceExport (moduleInstance : option ptr) (name : string)
    : M (option ptr) :=
  match moduleInstance with
  | None => crash NullPointer
  | Some p =>
      o ← deref p;
      match o with
      | ObjInstance mi => mret (exportMap mi !! name)
      | _ => crash WrongObjectKind
      end
  end.

(** [Runtime::memoryRef<T>(memory, offset)] for a [T] of [size] bytes. *)
Definition memoryRef (memory : ptr) (offset size : Z) : M Z :=
  o ← deref memory;
  match o with
  | ObjMemory m =>
      if decide (0 ≤ offset ∧ offset + size ≤ memoryNumPages m * numBytesPerPage)%Z
      then mret offset
      else crash MemoryOutOfBounds
  | _ => crash WrongObjectKind
  end.

(** An assignment of [n] bytes through a reference into a memory. *)
Definition store (memory : ptr) (n : nat) (addr v : Z) : M unit :=
  o ← deref memory;
  match o with
  | ObjMemory m =>
      modify (with_compartment
        (λ h, <[memory := ObjMemory (memory_with_bytes (storeBytes n addr v) m)]> h))
  | _ => crash WrongObjectKind
  end.

Definition load (memory : ptr) (n : nat) (addr : Z) (w : World) : option Z :=
  match compartment w !! memory with
  | Some (ObjMemory m) => Some (loadBytes n addr (memoryBytes m))
  | _ => None
  end.

(** *** Element access into the module's vectors

    [v[i]] on a [std::vector] is unchecked; out of range is a fault. *)
Definition at_ {A} (v : list A) (i : nat) : M A :=
  match v !! i with
  | Some x => mret x
  | None => crash VectorOutOfRange
  end.

Definition assign_memory_def (i : nat) (f : SizeConstraints → SizeConstraints) : M unit :=
  m ← gets module;
  d ← at_ (defs (memories m)) i;
  modify (with_module (with_memory_defs
    (<[i := memdef_with_type (memory_with_size f) d]> (defs (memories m))))).

Definition assign_memory_import (i : nat) (f : SizeConstraints → SizeConstraints) : M unit :=
  m ← gets module;
  d ← at_ (imports (memories m)) i;
  modify (with_module (with_memory_imports
    (<[i := import_with_type (memory_with_size f) d]> (imports (memories m))))).

Definition assign_table_import (i : nat) (f : SizeConstraints → SizeConstraints) : M unit :=
  m ← gets module;
  d ← at_ (imports (tables m)) i;
  modify (with_module (with_table_imports
    (<[i := import_with_type (table_with_size f) d]> (imports (tables m))))).

(** *** The resolver's operations *)

(** The constructor: its body is empty, the members take their
    initialisers. *)
Definition RootResolver_new : RootResolver :=
  {| isEmscripten := false; envModule := None; emEnvModule := None;
     emAsm2wasmModule := None; emGlobalModule := None; user := EmptyString |}.

Definition setUser (userIn : string) : M unit :=
  modify (with_resolver (set_user userIn)).

Definition setUpStandardToolchain : M unit :=
  assign_memory_def 0 (set_min (U64_of INITIAL_MEMORY_PAGES));;
  assign_memory_def 0 (set_max (U64_of MAX_MEMORY_PAGES));;
  inst ← instantiateModule getIntrinsicModule_env "env" ∅;
  modify (with_resolver (set_envModule (Some inst))).

Definition setUpEmscripten : M unit :=
  assign_memory_import 0 (set_min (U64_of INITIAL_EMSCRIPTEN_PAGES));;
  assign_memory_import 0 (set_max (U64_of MAX_EMSCRIPTEN_PAGES));;
  assign_table_import 0 (set_min (U64_of EMSCRIPTEN_MIN_TABLE_ELEMS));;
  assign_table_import 0 (set_max (U64_of EMSCRIPTEN_MAX_TABLE_ELEMS));;
  m ← gets module;
  mi ← at_ (imports (memories m)) 0;
  memory ← createMemory (import_type mi) "env.memory";
  ti ← at_ (imports (tables m)) 0;
  table ← createTable (import_type ti) "env.table";
  let extraEnvExports : gmap string ptr :=
    <["table" := table]> (<["memory" := memory]> ∅) in
  inst ← instantiateModule getIntrinsicModule_emEnv "env" extraEnvExports;
  modify (with_resolver (set_emEnvModule (Some inst)));;
  inst ← instantiateModule getIntrinsicModule_emAsm2wasm "emAsm2wasm" ∅;
  modify (with_resolver (set_emAsm2wasmModule (Some inst)));;
  inst ← instantiateModule getIntrinsicModule_emGlobal "emGlobal" ∅;
  modify (with_resolver (set_emGlobalModule (Some inst)));;
  mutableGlobals ← memoryRef memory MutableGlobals.address MutableGlobals.sizeof;
  store memory 4 (mutableGlobals + MutableGlobals.offset_DYNAMICTOP_PTR)
        (U32_of EMSCRIPTEN_STACK_MAX);;
  store memory 4 (mutableGlobals + MutableGlobals.offset__stderr)
        (I32_of (U32_of (ioStreamVMHandle_value StdErr)));;
  store memory 4 (mutableGlobals + MutableGlobals.offset__stdin)
        (I32_of (U32_of (ioStreamVMHandle_value StdIn)));;
  store memory 4 (mutableGlobals + MutableGlobals.offset__stdout)
        (I32_of (U32_of (ioStreamVMHandle_value StdOut))).

Definition setUp : M unit :=
  m ← gets module;
  if negb (bool_decide (defs (memories m) = []))
  then (modify (with_resolver (set_isEmscripten false));;
        setUpStandardToolchain)
  else (modify (with_resolver (set_isEmscripten true));;
        setUpEmscripten).

Definition cleanUp : M unit :=
  modify (with_resolver (set_envModule None));;
  modify (with_resolver (set_emEnvModule None));;
  modify (with_resolver (set_emAsm2wasmModule None));;
  modify (with_resolver (set_emGlobalModule None)).

(** [resolve]: [resolved] is a reference parameter, so the caller's value
    comes in and the final value goes out with the returned [bool].  The
    type-mismatch record gets the names and the two printed types as C
    strings, the missing-import record the names in full and the printed
    type as a C string. *)
Definition resolve (moduleName exportName : string) (type : ExternType)
    (resolved : option ptr) : M (bool * option ptr) :=
  emscripten ← member isEmscripten;
  resolved ←
    (if emscripten : bool then
       if decide (moduleName = "env") then
         member emEnvModule ≫= λ inst, getInstanceExport inst exportName
       else if decide (moduleName = "asm2wasm") then
         member emAsm2wasmModule ≫= λ inst, getInstanceExport inst exportName
       else if decide (moduleName = "global" ∨ moduleName = "global.Math") then
         member emGlobalModule ≫= λ inst, getInstanceExport inst exportName
       else
         (log_error "Unrecognised module: {}" [moduleName];;
          mret resolved)
     else
       member envModule ≫= λ inst, getInstanceExport inst exportName);
  match resolved with
  | Some p =>
      o ← deref p;
      if isA o type then mret (true, resolved)
      else
        (log_error "Resolved import {}.{} to a {}, but was expecting {}"
           [c_str moduleName; c_str exportName;
            c_str (asString (getObjectType o)); c_str (asString type)];;
         mret (false, resolved))
  | None =>
      log_error "Missing import {}.{} {}" [moduleName; exportName; c_str (asString type)];;
      mret (false, resolved)
  end.

(** ** Sequences of calls on one resolver

    What a client of the resolver can do, and what it gets to see: only
    [resolve] returns something, its [bool] and the final [resolved]. *)
Inductive Call :=
  | CallSetUser (userIn : string)
  | CallSetUp
  | CallCleanUp
  | CallResolve (moduleName exportName : string) (type : ExternType)
      (resolved : option ptr).

Inductive Observation :=
  | Resolved (result : bool) (resolved : option ptr).

Definition call (c : Call) : M (list Observation) :=
  match c with
  | CallSetUser userIn => setUser userIn;; mret []
  | CallSetUp => setUp;; mret []
  | CallCleanUp => cleanUp;; mret []
  | CallResolve moduleName exportName type resolved =>
      r ← resolve moduleName exportName type resolved;
      mret [Resolved r.1 r.2]
  end.

(** The calls run in order until one faults; the observations made up to
    there are kept. *)
Fixpoint run (cs : list Call) (w : World) : list Observation * Outcome unit :=
  match cs with
  | [] => ([], Ok () w)
  | c :: cs' =>
      match call c w with
      | Ok o w' => let r := run cs' w' in (o ++ r.1, r.2)
      | Crash f w' => ([], Crash f w')
      end
  end.

Definition isSetUp (c : Call) : bool :=
  match c with CallSetUp => true | _ => false end.

Definition isSetUser (c : Call) : bool :=
  match c with CallSetUser _ => true | _ => false end.

(** A call sequence with its [setUser] calls left out. *)
Definition withoutSetUser (cs : list Call) : list Call :=
  filter (λ c, isSetUser c = false) cs.

(** A world with the resolver's [user] member blanked, and an outcome seen
    through it. *)
Definition forgetUser (w : World) : World :=
  with_resolver (set_user EmptyString) w.

Definition outcome_map {A} (f : World → World) (o : Outcome A) : Outcome A :=
  match o with
  | Ok a w => Ok a (f w)
  | Crash e w => Crash e (f w)
  end.

(** A world with the four held instance references replaced. *)
Definition with_instances (env emEnv emAsm2wasm emGlobal : option ptr)
    (w : World) : World :=
  with_resolver
    (λ r, set_emGlobalModule emGlobal
            (set_emAsm2wasmModule emAsm2wasm
               (set_emEnvModule emEnv (set_envModule env r)))) w.

(** What an execution yields without the world it ends in. *)
Definition value {A} (o : Outcome A) : Fault + A :=
  match o with
  | Ok a _ => inr a
  | Crash f _ => inl f
  end.

(** ** The lookup rule in the words of the design

    Which module names a path accepts, and which held instance a name
    stands for. *)
Definition allowedModuleName (emscripten : bool) (moduleName : string) : Prop :=
  if emscripten
  then moduleName ∈ ["env"; "asm2wasm"; "global"; "global.Math"]
  else moduleName = "env".

Definition collectionFor (r : RootResolver) (moduleName : string) : option ptr :=
  if isEmscripten r then
    if decide (moduleName = "env") then emEnvModule r
    else if decide (moduleName = "asm2wasm") then emAsm2wasmModule r
    else emGlobalModule r
  else envModule r.

(** ** What [resolve] returns, as a function of what it reads

    [lookedUp] is the held instance a call looks in ([None]: the call makes
    no lookup); [exportOf] the lookup; [typeTested] the test that follows. *)
Definition lookedUp (r : RootResolver) (moduleName : string) : option (option ptr) :=
  if isEmscripten r then
    if decide (moduleName = "env") then Some (emEnvModule r)
    else if decide (moduleName = "asm2wasm") then Some (emAsm2wasmModule r)
    else if decide (moduleName = "global" ∨ moduleName = "global.Math")
         then Some (emGlobalModule r)
    else None
  else Some (envModule r).

Definition exportOf (h : list RuntimeObject) (inst : option ptr) (name : string)
    : Fault + option ptr :=
  match inst with
  | None => inl NullPointer
  | Some p =>
      match h !! p with
      | Some (ObjInstance mi) => inr (exportMap mi !! name)
      | Some _ => inl WrongObjectKind
      | None => inl NullPointer
      end
  end.

Definition typeTested (h : list RuntimeObject) (type : ExternType)
    (resolved : option ptr) : Fault + bool * option ptr :=
  match resolved with
  | Some p =>
      match h !! p with
      | Some o => inr (isA o type, resolved)
      | None => inl NullPointer
      end
  | None => inr (false, None)
  end.

Definition resolveValue (h : list RuntimeObject) (selected : option (option ptr))
    (exportName : string) (type : ExternType) (resolved : option ptr)
    : Fault + bool * option ptr :=
  match selected with
  | Some inst =>
      match exportOf h inst exportName with
      | inl f => inl f
      | inr x => typeTested h type x
      end
  | None => typeTested h type resolved
  end.

(** A held instance reference that [resolve] can use: it points to a module
    instance of the compartment whose exports all point into the
    compartment. *)
Definition liveInstance (h : list RuntimeObject) (inst : option ptr) : Prop :=
  ∃ p mi, inst = Some p
        ∧ h !! p = Some (ObjInstance mi)
        ∧ ∀ name q, exportMap mi !! name = Some q → is_Some (h !! q).

(** An operation that, however it ends, has changed nothing but the
    logger. *)
Definition logsOnly {A} (m : M A) : Prop :=
  ∀ w, ∃ l, final (m w) = with_logger (λ _, l) w.

(** An operation treats the [user] member as a passenger when setting the
    member before it runs or after it has run comes to the same. *)
Definition carriesUser {A} (m : M A) : Prop :=
  ∀ u w, m (with_resolver (set_user u) w)
         = outcome_map (with_resolver (set_user u)) (m w).

(** ** The worlds the two set-up paths end in *)

(** The first declared memory after the two assignments of the standard
    path. *)
Definition standardDef (d : MemoryDef) : MemoryDef :=
  memdef_with_type (memory_with_size (set_max (U64_of MAX_MEMORY_PAGES)))
    (memdef_with_type (memory_with_size (set_min (U64_of INITIAL_MEMORY_PAGES))) d).

(** The limits the legacy path writes into the first imported memory and
    table. *)
Definition legacyMemoryType (t : MemoryType) : MemoryType :=
  memory_with_size (set_max (U64_of MAX_EMSCRIPTEN_PAGES))
    (memory_with_size (set_min (U64_of INITIAL_EMSCRIPTEN_PAGES)) t).

Definition legacyTableType (t : TableType) : TableType :=
  table_with_size (set_max (U64_of EMSCRIPTEN_MAX_TABLE_ELEMS))
    (table_with_size (set_min (U64_of EMSCRIPTEN_MIN_TABLE_ELEMS)) t).

(** The four field assignments through the [MutableGlobals] reference. *)
Definition patchGlobals (bytes : gmap Z Z) : gmap Z Z :=
  storeBytes 4 (MutableGlobals.address + MutableGlobals.offset__stdout)
    (I32_of (U32_of (ioStreamVMHandle_value StdOut)))
    (storeBytes 4 (MutableGlobals.address + MutableGlobals.offset__stdin)
       (I32_of (U32_of (ioStreamVMHandle_value StdIn)))
       (storeBytes 4 (MutableGlobals.address + MutableGlobals.offset__stderr)
          (I32_of (U32_of (ioStreamVMHandle_value StdErr)))
          (storeBytes 4 (MutableGlobals.address + MutableGlobals.offset_DYNAMICTOP_PTR)
             (U32_of EMSCRIPTEN_STACK_MAX) bytes))).

(** The memory object the legacy path leaves in the compartment. *)
Definition legacyMemory (t : MemoryType) : Memory :=
  {| memoryType := legacyMemoryType t;
     memoryDebugName := "env.memory";
     memoryNumPages := size_min (memory_size (legacyMemoryType t));
     memoryBytes := patchGlobals ∅ |}.

Definition legacyTable (t : TableType) : Table :=
  {| tableType := legacyTableType t; tableDebugName := "env.table" |}.

(** The world in which the legacy path ends when the module has a first
    imported memory [mi] and a first imported table [ti]. *)
Definition afterSetUpEmscripten (w : World)
    (mi : Import MemoryType) (mis : list (Import MemoryType))
    (ti : Import TableType) (tis : list (Import TableType)) : World :=
  let memory := length (compartment w) in
  let table := S memory in
  let env := S table in
  let envObjects :=
    instanceObjects getIntrinsicModule_emEnv "env"
      (<["table" := table]> (<["memory" := memory]> ∅)) env in
  let asm2wasm := env + length envObjects in
  let asm2wasmObjects :=
    instanceObjects getIntrinsicModule_emAsm2wasm "emAsm2wasm" ∅ asm2wasm in
  let global := asm2wasm + length asm2wasmObjects in
  let globalObjects :=
    instanceObjects getIntrinsicModule_emGlobal "emGlobal" ∅ global in
  {| resolver :=
       set_emGlobalModule (Some global)
         (set_emAsm2wasmModule (Some asm2wasm)
            (set_emEnvModule (Some env) (resolver w)));
     module :=
       with_table_imports (import_with_type legacyTableType ti :: tis)
         (with_memory_imports (import_with_type legacyMemoryType mi :: mis)
            (module w));
     compartment :=
       compartment w ++
         ObjMemory (legacyMemory (import_type mi)) ::
         ObjTable (legacyTable (import_type ti)) ::
         envObjects ++ asm2wasmObjects ++ globalObjects;
     logger := logger w |}.

(** ** [resolve] in full, as a function of what it reads

    [typeTestOutcome] is the part of [resolve] after the lookup: the type
    test with its two diagnostics. *)
Definition typeTestOutcome (moduleName exportName : string) (type : ExternType)
    (x : option ptr) (w : World) : Outcome (bool * option ptr) :=
  match x with
  | Some p =>
      match compartment w !! p with
      | Some o =>
          if isA o type then Ok (true, x) w
          else Ok (false, x)
                 (logged "Resolved import {}.{} to a {}, but was expecting {}"
                    [c_str moduleName; c_str exportName;
                     c_str (asString (getObjectType o)); c_str (asString type)] w)
      | None => Crash NullPointer w
      end
  | None =>
      Ok (false, None)
         (logged "Missing import {}.{} {}" [moduleName; exportName; c_str (asString type)] w)
  end.

(** The two ways a lookup that found, or did not find, an export ends:
    [verdict] for an export that is the object [o] at [p], [missing] for no
    export, each with the record [resolve] logs. *)
Definition verdict (moduleName exportName : string) (type : ExternType)
    (p : ptr) (o : RuntimeObject) (w : World) : Outcome (bool * option ptr) :=
  if isA o type then Ok (true, Some p) w
  else Ok (false, Some p)
         (logged "Resolved import {}.{} to a {}, but was expecting {}"
            [c_str moduleName; c_str exportName;
            c_str (asString (getObjectType o)); c_str (asString type)] w).

Definition missing (moduleName exportName : string) (type : ExternType)
    (w : World) : Outcome (bool * option ptr) :=
  Ok (false, None)
     (logged "Missing import {}.{} {}" [moduleName; exportName; c_str (asString type)] w).

(** The world in which the standard path ends when the module's declared
    memories are [d :: ds]. *)
Definition afterSetUpStandardToolchain (w : World) (d : MemoryDef)
    (ds : list MemoryDef) : World :=
  with_resolver (set_envModule (Some (length (compartment w))))
    (with_compartment
       (λ h, h ++ instanceObjects getIntrinsicModule_env "env" ∅ (length h))
       (with_module (with_memory_defs (standardDef d :: ds)) w)).

(** The bytes of the [MutableGlobals] block that [setUpEmscripten] assigns:
    those of [DYNAMICTOP_PTR], [_stderr], [_stdin] and [_stdout]. *)
Definition assignedGlobalsByte (a : Z) : Prop :=
  (MutableGlobals.address + MutableGlobals.offset_DYNAMICTOP_PTR ≤ a
   < MutableGlobals.address + MutableGlobals.offset_DYNAMICTOP_PTR + 4
   ∨ MutableGlobals.address + MutableGlobals.offset__stderr ≤ a
     < MutableGlobals.address + MutableGlobals.offset__stdout + 4)%Z.

(** ** Reasoning about the monad *)

Lemma bind_Ok {A B} (m : M A) (k : A → M B) w a w' :
  m w = Ok a w' → (m ≫= k) w = k a w'.
Proof. intros H. unfold mbind, M_bind. by rewrite H. Qed.

Lemma bind_Crash {A B} (m : M A) (k : A → M B) w f w' :
  m w = Crash f w' → (m ≫= k) w = Crash f w'.
Proof. intros H. unfold mbind, M_bind. by rewrite H. Qed.

Lemma bind_gets {A B} (f : World → A) (k : A → M B) w :
  (gets f ≫= k) w = k (f w) w.
Proof. reflexivity. Qed.

Lemma bind_modify {B} (f : World → World) (k : unit → M B) w :
  (modify f ≫= k) w = k () (f w).
Proof. reflexivity. Qed.

Lemma bind_ret {A B} (a : A) (k : A → M B) w :
  (mret a ≫= k) w = k a w.
Proof. reflexivity. Qed.

Lemma at_Ok {A} (v : list A) i x w : v !! i = Some x → at_ v i w = Ok x w.
Proof. intros H. unfold at_. by rewrite H. Qed.

Lemma at_Crash {A} (v : list A) i w :
  v !! i = None → at_ v i w = Crash VectorOutOfRange w.
Proof. intros H. unfold at_. by rewrite H. Qed.

Lemma assign_memory_def_Ok i f w d :
  defs (memories (module w)) !! i = Some d →
  assign_memory_def i f w =
    Ok () (with_module (with_memory_defs
      (<[i := memdef_with_type (memory_with_size f) d]> (defs (memories (module w))))) w).
Proof.
  intros H. unfold assign_memory_def.
  rewrite bind_gets, (bind_Ok _ _ _ _ _ (at_Ok _ _ _ _ H)). reflexivity.
Qed.

Lemma assign_memory_def_Crash i f w :
  defs (memories (module w)) !! i = None →
  assign_memory_def i f w = Crash VectorOutOfRange w.
Proof.
  intros H. unfold assign_memory_def.
  rewrite bind_gets. apply bind_Crash, at_Crash, H.
Qed.


(** ** The two set-up paths, run to their end *)

Lemma setUpStandardToolchain_Ok w d ds :
  defs (memories (module w)) = d :: ds →
  setUpStandardToolchain w =
    Ok () (with_resolver (set_envModule (Some (length (compartment w))))
      (with_compartment
         (λ h, h ++ instanceObjects getIntrinsicModule_env "env" ∅ (length h))
         (with_module (with_memory_defs (standardDef d :: ds)) w))).
Proof.
  destruct w as [r [[mi md] t] h l]. simpl. intros ->. reflexivity.
Qed.

Lemma setUpStandardToolchain_Crash w :
  defs (memories (module w)) = [] →
  setUpStandardToolchain w = Crash VectorOutOfRange w.
Proof.
  destruct w as [r [[mi md] t] h l]. simpl. intros ->. reflexivity.
Qed.


Arguments instanceObjects : simpl never.
Arguments U64_of : simpl never.
Arguments U32_of : simpl never.
Arguments I32_of : simpl never.

Lemma assign_memory_import_Ok i f w d :
  imports (memories (module w)) !! i = Some d →
  assign_memory_import i f w =
    Ok () (with_module (with_memory_imports
      (<[i := import_with_type (memory_with_size f) d]>
         (imports (memories (module w))))) w).
Proof.
  intros H. unfold assign_memory_import.
  rewrite bind_gets, (bind_Ok _ _ _ _ _ (at_Ok _ _ _ _ H)). reflexivity.
Qed.

Lemma assign_memory_import_Crash i f w :
  imports (memories (module w)) !! i = None →
  assign_memory_import i f w = Crash VectorOutOfRange w.
Proof.
  intros H. unfold assign_memory_import.
  rewrite bind_gets. apply bind_Crash, at_Crash, H.
Qed.

Lemma assign_table_import_Ok i f w d :
  imports (tables (module w)) !! i = Some d →
  assign_table_import i f w =
    Ok () (with_module (with_table_imports
      (<[i := import_with_type (table_with_size f) d]>
         (imports (tables (module w))))) w).
Proof.
  intros H. unfold assign_table_import.
  rewrite bind_gets, (bind_Ok _ _ _ _ _ (at_Ok _ _ _ _ H)). reflexivity.
Qed.

Lemma assign_table_import_Crash i f w :
  imports (tables (module w)) !! i = None →
  assign_table_import i f w = Crash VectorOutOfRange w.
Proof.
  intros H. unfold assign_table_import.
  rewrite bind_gets. apply bind_Crash, at_Crash, H.
Qed.

Lemma deref_Ok p o w : compartment w !! p = Some o → deref p w = Ok o w.
Proof. intros H. unfold deref. by rewrite H. Qed.

Lemma deref_Crash p w : compartment w !! p = None → deref p w = Crash NullPointer w.
Proof. intros H. unfold deref. by rewrite H. Qed.

Lemma memoryRef_Ok p offset size m w :
  compartment w !! p = Some (ObjMemory m) →
  (0 ≤ offset ∧ offset + size ≤ memoryNumPages m * numBytesPerPage)%Z →
  memoryRef p offset size w = Ok offset w.
Proof.
  intros H Hb. unfold memoryRef.
  rewrite (bind_Ok _ _ _ _ _ (deref_Ok _ _ _ H)).
  by rewrite decide_True.
Qed.

Lemma store_Ok p n addr v m w :
  compartment w !! p = Some (ObjMemory m) →
  store p n addr v w =
    Ok () (with_compartment
      (λ h, <[p := ObjMemory (memory_with_bytes (storeBytes n addr v) m)]> h) w).
Proof.
  intros H. unfold store.
  by rewrite (bind_Ok _ _ _ _ _ (deref_Ok _ _ _ H)).
Qed.

Lemma MutableGlobals_in_bounds :
  (0 ≤ MutableGlobals.address ∧
   MutableGlobals.address + MutableGlobals.sizeof
     ≤ U64_of INITIAL_EMSCRIPTEN_PAGES * numBytesPerPage)%Z.
Proof. vm_compute. split; discriminate. Qed.

Lemma insert_at_length {A} (l1 l2 : list A) x y :
  <[length l1 := y]> (l1 ++ x :: l2) = l1 ++ y :: l2.
Proof.
  rewrite insert_app_r_alt by lia. by rewrite Nat.sub_diag.
Qed.

Ltac tidy :=
  unfold with_compartment, with_resolver, with_module, with_logger; simpl;
  rewrite ?length_app, <- ?app_assoc; simpl;
  rewrite ?Nat.add_succ_r, ?Nat.add_0_r, ?Nat.add_assoc.

Opaque instanceObjects storeBytes.

Ltac step lem := erewrite bind_Ok; [| tidy; lem]; tidy.

Lemma setUpEmscripten_Ok w mi mis ti tis :
  imports (memories (module w)) = mi :: mis →
  imports (tables (module w)) = ti :: tis →
  setUpEmscripten w = Ok () (afterSetUpEmscripten w mi mis ti tis).
Proof.
  destruct w as [r [[mim md] [tim td]] h l]. simpl. intros -> ->.
  unfold setUpEmscripten.
  do 2 step ltac:(by apply assign_memory_import_Ok).
  do 2 step ltac:(by apply assign_table_import_Ok).
  rewrite bind_gets; simpl.
  step ltac:(by apply at_Ok). step ltac:(reflexivity).
  step ltac:(by apply at_Ok). step ltac:(reflexivity).
  do 3 (step ltac:(reflexivity); rewrite bind_modify; tidy).
  step ltac:(eapply memoryRef_Ok;
            [by apply list_lookup_middle | exact MutableGlobals_in_bounds]).
  do 3 (step ltac:(by apply store_Ok, list_lookup_middle);
        rewrite insert_at_length).
  erewrite store_Ok by (by apply list_lookup_middle).
  unfold afterSetUpEmscripten. tidy. rewrite insert_at_length.

  reflexivity.
Qed.

Transparent instanceObjects storeBytes.



Lemma setUpEmscripten_no_memory w :
  imports (memories (module w)) = [] →
  setUpEmscripten w = Crash VectorOutOfRange w.
Proof.
  intros H. unfold setUpEmscripten.
  apply bind_Crash, assign_memory_import_Crash. by rewrite H.
Qed.

Lemma setUpEmscripten_no_table w mi mis :
  imports (memories (module w)) = mi :: mis →
  imports (tables (module w)) = [] →
  setUpEmscripten w =
    Crash VectorOutOfRange
      (with_module
         (with_memory_imports (import_with_type legacyMemoryType mi :: mis)) w).
Proof.
  destruct w as [r [[mim md] [tim td]] h l]. simpl. intros -> ->.
  unfold setUpEmscripten.
  do 2 step ltac:(by apply assign_memory_import_Ok).
  apply bind_Crash, assign_table_import_Crash. reflexivity.
Qed.

Lemma setUp_standard w d ds :
  defs (memories (module w)) = d :: ds →
  setUp w = setUpStandardToolchain (with_resolver (set_isEmscripten false) w).
Proof. intros H. unfold setUp. rewrite bind_gets, H. reflexivity. Qed.

Lemma setUp_legacy w :
  defs (memories (module w)) = [] →
  setUp w = setUpEmscripten (with_resolver (set_isEmscripten true) w).
Proof. intros H. unfold setUp. rewrite bind_gets, H. reflexivity. Qed.

(** Where the objects of the legacy path sit in the compartment. *)
Lemma lookup_past {A} (l1 l2 : list A) i :
  (l1 ++ l2) !! (length l1 + i) = l2 !! i.
Proof. rewrite lookup_app_r by lia. f_equal. lia. Qed.

Lemma legacy_memory_object w mi mis ti tis :
  compartment (afterSetUpEmscripten w mi mis ti tis) !! length (compartment w)
  = Some (ObjMemory (legacyMemory (import_type mi))).
Proof. by apply list_lookup_middle. Qed.

Lemma legacy_table_object w mi mis ti tis :
  compartment (afterSetUpEmscripten w mi mis ti tis) !! S (length (compartment w))
  = Some (ObjTable (legacyTable (import_type ti))).
Proof.
  simpl. rewrite <- Nat.add_1_r. by rewrite lookup_past.
Qed.

Lemma legacy_env_instance w mi mis ti tis :
  ∃ mi', compartment (afterSetUpEmscripten w mi mis ti tis)
           !! S (S (length (compartment w))) = Some (ObjInstance mi')
       ∧ instanceDebugName mi' = "env"
       ∧ exportMap mi' !! "memory" = Some (length (compartment w))
       ∧ exportMap mi' !! "table" = Some (S (length (compartment w))).
Proof.
  eexists. split; [| split; [| split]].
  - simpl. replace (S (S (length (compartment w))))
      with (length (compartment w) + 2) by lia.
    rewrite lookup_past. reflexivity.
  - reflexivity.
  - simpl. apply lookup_union_Some_l. by simplify_map_eq.
  - simpl. apply lookup_union_Some_l. by simplify_map_eq.
Qed.



(** ** [cleanUp] and [resolve] step by step *)

Lemma cleanUp_Ok w :
  cleanUp w =
    Ok () (with_resolver
      (λ r, set_emGlobalModule None
              (set_emAsm2wasmModule None
                 (set_emEnvModule None (set_envModule None r)))) w).
Proof. reflexivity. Qed.

Lemma bind_member {A B} (f : RootResolver → A) (k : A → M B) w :
  (member f ≫= k) w = k (f (resolver w)) w.
Proof. reflexivity. Qed.

Lemma getInstanceExport_Ok inst mi name w :
  compartment w !! inst = Some (ObjInstance mi) →
  getInstanceExport (Some inst) name w = Ok (exportMap mi !! name) w.
Proof.
  intros H. unfold getInstanceExport.
  by rewrite (bind_Ok _ _ _ _ _ (deref_Ok _ _ _ H)).
Qed.

Lemma getInstanceExport_null name w :
  getInstanceExport None name w = Crash NullPointer w.
Proof. reflexivity. Qed.

(** [resolve] on a name the active path accepts, whose instance is live:
    one lookup in that instance, then the type test. *)
Lemma resolve_selected w moduleName exportName type resolved inst mi :
  allowedModuleName (isEmscripten (resolver w)) moduleName →
  collectionFor (resolver w) moduleName = Some inst →
  compartment w !! inst = Some (ObjInstance mi) →
  resolve moduleName exportName type resolved w =
    match exportMap mi !! exportName with
    | Some p =>
        match compartment w !! p with
        | Some o =>
            if isA o type then Ok (true, Some p) w
            else Ok (false, Some p)
                   (logged "Resolved import {}.{} to a {}, but was expecting {}"
                      [c_str moduleName; c_str exportName;
                       c_str (asString (getObjectType o)); c_str (asString type)] w)
        | None => Crash NullPointer w
        end
    | None =>
        Ok (false, None)
           (logged "Missing import {}.{} {}"
              [moduleName; exportName; c_str (asString type)] w)
    end.
Proof.
  unfold allowedModuleName, collectionFor.
  intros Hallowed Hsel Hinst. unfold resolve. rewrite bind_member.
  erewrite bind_Ok; cycle 1.
  { destruct (isEmscripten (resolver w)).
    - repeat case_decide;
        try (rewrite bind_member, Hsel; by apply getInstanceExport_Ok).
      rewrite !elem_of_cons, elem_of_nil in Hallowed. tauto.
    - rewrite bind_member, Hsel. by apply getInstanceExport_Ok. }
  destruct (exportMap mi !! exportName) as [p|]; [| reflexivity].
  destruct (compartment w !! p) as [o|] eqn:Hp.
  - rewrite (bind_Ok _ _ _ _ _ (deref_Ok _ _ _ Hp)).
    by destruct (isA o type).
  - by rewrite (bind_Crash _ _ _ _ _ (deref_Crash _ _ Hp)).
Qed.


(** ** Operations that only log *)

Lemma logsOnly_ret {A} (a : A) : logsOnly (mret a).
Proof. intros [r m h l]. by exists l. Qed.

Lemma logsOnly_crash {A} f : logsOnly (crash f : M A).
Proof. intros [r m h l]. by exists l. Qed.

Lemma logsOnly_gets {A} (f : World → A) : logsOnly (gets f).
Proof. intros [r m h l]. by exists l. Qed.

Lemma logsOnly_member {A} (f : RootResolver → A) : logsOnly (member f).
Proof. apply logsOnly_gets. Qed.

Lemma logsOnly_log_error fmt args : logsOnly (log_error fmt args).
Proof. intros [r m h l]. by eexists. Qed.

Lemma logsOnly_deref p : logsOnly (deref p).
Proof. intros [r m h l]. exists l. unfold deref. by case_match. Qed.

Lemma logsOnly_bind {A B} (m : M A) (k : A → M B) :
  logsOnly m → (∀ a, logsOnly (k a)) → logsOnly (m ≫= k).
Proof.
  intros Hm Hk w. destruct (Hm w) as [l Hl].
  unfold mbind, M_bind. destruct (m w) as [a w'|f w']; simpl in Hl; subst w'.
  - destruct (Hk a (with_logger (λ _, l) w)) as [l' Hl']. exists l'.
    by rewrite Hl'.
  - by exists l.
Qed.

Ltac logs_only :=
  repeat first
    [ apply logsOnly_ret | apply logsOnly_crash | apply logsOnly_member
    | apply logsOnly_gets | apply logsOnly_log_error | apply logsOnly_deref
    | apply logsOnly_bind; [| intros ?]
    | case_match | case_decide ].

Lemma logsOnly_getInstanceExport inst name : logsOnly (getInstanceExport inst name).
Proof. unfold getInstanceExport. logs_only. Qed.

(** [resolve] writes to the logger and to nothing else. *)
Lemma resolve_frame moduleName exportName type resolved :
  logsOnly (resolve moduleName exportName type resolved).
Proof.
  unfold resolve.
  repeat first [ apply logsOnly_getInstanceExport | progress logs_only ].
Qed.


(** ** Operations that carry the [user] member along *)

Lemma carriesUser_ret {A} (a : A) : carriesUser (mret a).
Proof. by intros u w. Qed.

Lemma carriesUser_crash {A} f : carriesUser (crash f : M A).
Proof. by intros u w. Qed.

Lemma carriesUser_gets {A} (f : World → A) :
  (∀ u w, f (with_resolver (set_user u) w) = f w) → carriesUser (gets f).
Proof. intros H u w. unfold gets. by rewrite H. Qed.

Lemma carriesUser_member {A} (f : RootResolver → A) :
  (∀ u r, f (set_user u r) = f r) → carriesUser (member f).
Proof. intros H. apply carriesUser_gets. intros u w. apply H. Qed.

Lemma carriesUser_modify (f : World → World) :
  (∀ u w, f (with_resolver (set_user u) w) = with_resolver (set_user u) (f w)) →
  carriesUser (modify f).
Proof. intros H u w. unfold modify. simpl. by rewrite H. Qed.

Lemma carriesUser_alloc o : carriesUser (alloc o).
Proof. by intros u w. Qed.

Lemma carriesUser_deref p : carriesUser (deref p).
Proof. intros u w. unfold deref. simpl. by case_match. Qed.

Lemma carriesUser_at {A} (v : list A) i : carriesUser (at_ v i).
Proof. intros u w. unfold at_. by case_match. Qed.

Lemma carriesUser_instantiateModule intrinsics debugName extraExports :
  carriesUser (instantiateModule intrinsics debugName extraExports).
Proof. by intros u w. Qed.

Lemma carriesUser_bind {A B} (m : M A) (k : A → M B) :
  carriesUser m → (∀ a, carriesUser (k a)) → carriesUser (m ≫= k).
Proof.
  intros Hm Hk u w. unfold mbind, M_bind. rewrite Hm.
  destruct (m w) as [a w'|f w']; simpl; [apply Hk | done].
Qed.

Ltac carries_user :=
  repeat first
    [ apply carriesUser_ret | apply carriesUser_crash
    | apply carriesUser_member; reflexivity
    | apply carriesUser_gets; reflexivity
    | apply carriesUser_modify; reflexivity
    | apply carriesUser_alloc | apply carriesUser_deref | apply carriesUser_at
    | apply carriesUser_instantiateModule
    | apply carriesUser_bind; [| intros ?]
    | case_match | case_decide ].

Lemma carriesUser_getInstanceExport inst name :
  carriesUser (getInstanceExport inst name).
Proof. unfold getInstanceExport. carries_user. Qed.

Lemma carriesUser_memoryRef memory offset size :
  carriesUser (memoryRef memory offset size).
Proof. unfold memoryRef. carries_user. Qed.

Lemma carriesUser_store memory n addr v : carriesUser (store memory n addr v).
Proof. unfold store. carries_user. Qed.

Lemma carriesUser_setUpStandardToolchain : carriesUser setUpStandardToolchain.
Proof. unfold setUpStandardToolchain, assign_memory_def. carries_user. Qed.

Lemma carriesUser_setUpEmscripten : carriesUser setUpEmscripten.
Proof.
  unfold setUpEmscripten, assign_memory_import, assign_table_import,
    createMemory, createTable.
  repeat first [ apply carriesUser_memoryRef | apply carriesUser_store
               | progress carries_user ].
Qed.

Lemma carriesUser_setUp : carriesUser setUp.
Proof.
  unfold setUp.
  repeat first [ apply carriesUser_setUpStandardToolchain
               | apply carriesUser_setUpEmscripten | progress carries_user ].
Qed.

Lemma carriesUser_cleanUp : carriesUser cleanUp.
Proof. unfold cleanUp. carries_user. Qed.

Lemma carriesUser_resolve moduleName exportName type resolved :
  carriesUser (resolve moduleName exportName type resolved).
Proof.
  unfold resolve, log_error.
  repeat first [ apply carriesUser_getInstanceExport | progress carries_user ].
Qed.

Lemma carriesUser_call c : isSetUser c = false → carriesUser (call c).
Proof.
  destruct c; simpl; [done | intros _ ..].
  - apply carriesUser_bind; [apply carriesUser_setUp | intros ?; carries_user].
  - apply carriesUser_bind; [apply carriesUser_cleanUp | intros ?; carries_user].
  - apply carriesUser_bind; [apply carriesUser_resolve | intros ?; carries_user].
Qed.

Lemma run_forgetUser cs w :
  (run (withoutSetUser cs) (forgetUser w)).1 = (run cs w).1 ∧
  (run (withoutSetUser cs) (forgetUser w)).2 = outcome_map forgetUser (run cs w).2.
Proof.
  revert w. induction cs as [|c cs IH]; intros w; [done |].
  unfold withoutSetUser in *. destruct (isSetUser c) eqn:Hc.
  - rewrite filter_cons_False by (by rewrite Hc).
    destruct c; try done. simpl.
    destruct (IH (with_resolver (set_user userIn) w)) as [IH1 IH2].
    split; [exact IH1 | exact IH2].
  - rewrite filter_cons_True by done. simpl.
    assert (call c (forgetUser w) = outcome_map forgetUser (call c w)) as ->
      by apply (carriesUser_call c Hc).
    destruct (call c w) as [o w'|f w']; simpl; [| done].
    destruct (IH w') as [IH1 IH2]. split; [by rewrite <- IH1 | exact IH2].
Qed.


(** ** What [resolve] returns depends on the compartment, on the instance
    its branches select and on nothing else *)

Lemma getInstanceExport_value inst name w :
  getInstanceExport inst name w =
    match exportOf (compartment w) inst name with
    | inl f => Crash f w
    | inr x => Ok x w
    end.
Proof.
  destruct inst as [p|]; [| reflexivity].
  unfold getInstanceExport, exportOf, deref, mbind, M_bind.
  by destruct (compartment w !! p) as [[]|].
Qed.

(** The statements of [resolve] after the lookup. *)
Lemma typeTest_value moduleName exportName type (x : option ptr) w :
  value
    (match x with
     | Some p =>
         o ← deref p;
         if isA o type then mret (true, x)
         else
           (log_error "Resolved import {}.{} to a {}, but was expecting {}"
              [c_str moduleName; c_str exportName;
            c_str (asString (getObjectType o)); c_str (asString type)];;
            mret (false, x))
     | None =>
         log_error "Missing import {}.{} {}" [moduleName; exportName; c_str (asString type)];;
         mret (false, x)
     end w)
  = typeTested (compartment w) type x.
Proof.
  destruct x as [p|]; [| reflexivity].
  unfold typeTested, deref, mbind, M_bind.
  destruct (compartment w !! p) as [o|]; [| reflexivity].
  by destruct (isA o type).
Qed.

Lemma lookup_value {A} (f : RootResolver → option ptr) name
    (k : option ptr → M A) w :
  ((member f ≫= λ inst, getInstanceExport inst name) ≫= k) w =
    match exportOf (compartment w) (f (resolver w)) name with
    | inl e => Crash e w
    | inr x => k x w
    end.
Proof.
  destruct (exportOf (compartment w) (f (resolver w)) name) as [e|x] eqn:E.
  - apply bind_Crash. by rewrite bind_member, getInstanceExport_value, E.
  - apply bind_Ok. by rewrite bind_member, getInstanceExport_value, E.
Qed.

Lemma resolve_value moduleName exportName type resolved w :
  value (resolve moduleName exportName type resolved w)
  = resolveValue (compartment w) (lookedUp (resolver w) moduleName)
      exportName type resolved.
Proof.
  unfold resolve, lookedUp, resolveValue. rewrite bind_member.
  destruct (isEmscripten (resolver w)); repeat case_decide;
    try (rewrite lookup_value;
         match goal with
         | |- context [exportOf ?h ?i ?n] => destruct (exportOf h i n)
         end; [reflexivity | apply typeTest_value]).
  rewrite bind_Ok with (a := resolved)
    (w' := logged "Unrecognised module: {}" [moduleName] w) by reflexivity.
  by rewrite typeTest_value.
Qed.


(** ** The toolchain flag along a sequence of calls *)

Lemma logsOnly_flag {A} (m : M A) w :
  logsOnly m → isEmscripten (resolver (final (m w))) = isEmscripten (resolver w).
Proof. intros H. destruct (H w) as [l ->]. reflexivity. Qed.

Lemma call_flag c w :
  isSetUp c = false →
  isEmscripten (resolver (final (call c w))) = isEmscripten (resolver w).
Proof.
  destruct c; simpl; try done. intros _.
  apply logsOnly_flag, logsOnly_bind; [apply resolve_frame | intros ?].
  apply logsOnly_ret.
Qed.

Lemma run_flag cs w :
  Forall (λ c, isSetUp c = false) cs →
  isEmscripten (resolver (final (run cs w).2)) = isEmscripten (resolver w).
Proof.
  intros H. revert w. induction H as [|c cs Hc _ IH]; intros w; [done |].
  simpl. pose proof (call_flag c w Hc) as Hflag.
  destruct (call c w) as [o w'|f w']; simpl in *; [| done].
  by rewrite IH.
Qed.

Lemma setUp_final_flag w :
  isEmscripten (resolver (final (setUp w)))
  = bool_decide (defs (memories (module w)) = []).
Proof.
  destruct (defs (memories (module w))) as [|d ds] eqn:Hd.
  - rewrite (setUp_legacy _ Hd).
    destruct (imports (memories (module w))) as [|mi mis] eqn:Hm.
    { by rewrite setUpEmscripten_no_memory. }
    destruct (imports (tables (module w))) as [|ti tis] eqn:Ht.
    { by erewrite setUpEmscripten_no_table. }
    by erewrite setUpEmscripten_Ok.
  - rewrite (setUp_standard _ _ _ Hd). by erewrite setUpStandardToolchain_Ok.
Qed.

(** ** [setUp] leaves the instances of its path ready for [resolve] *)

Lemma instanceObjects_length intrinsics debugName extraExports base :
  length (instanceObjects intrinsics debugName extraExports base)
  = S (length (map_to_list intrinsics)).
Proof. unfold instanceObjects. simpl. by rewrite length_fmap. Qed.

Lemma instanceObjects_live h intrinsics debugName extraExports rest :
  (∀ name q, extraExports !! name = Some q → q < length h) →
  liveInstance
    (h ++ instanceObjects intrinsics debugName extraExports (length h) ++ rest)
    (Some (length h)).
Proof.
  intros Hextra.
  eexists (length h), _. split; [done |]. split.
  { unfold instanceObjects. simpl. by apply list_lookup_middle. }
  simpl. intros name q Hq. apply lookup_lt_is_Some.
  rewrite length_app. simpl. rewrite length_app, length_fmap.
  apply lookup_union_Some_raw in Hq as [Hq|[_ Hq]].
  - apply Hextra in Hq. lia.
  - apply elem_of_list_to_map_2, elem_of_zip_r, elem_of_seq in Hq. lia.
Qed.

Lemma liveInstance_mono h1 h2 inst :
  liveInstance h1 inst → liveInstance (h1 ++ h2) inst.
Proof.
  intros (p & mi & -> & Hp & Hexp). exists p, mi. split; [done |]. split.
  - by apply lookup_app_l_Some.
  - intros name q Hq. destruct (Hexp name q Hq) as [o Ho].
    exists o. by apply lookup_app_l_Some.
Qed.

Lemma setUp_standard_ready w :
  defs (memories (module w)) ≠ [] →
  ∃ w', setUp w = Ok () w'
      ∧ isEmscripten (resolver w') = false
      ∧ liveInstance (compartment w') (envModule (resolver w')).
Proof.
  destruct (defs (memories (module w))) as [|d ds] eqn:Hd; [done | intros _].
  rewrite (setUp_standard _ _ _ Hd).
  erewrite setUpStandardToolchain_Ok by done.
  eexists. split; [done |]. split; [done |]. simpl.
  rewrite <- (app_nil_r (instanceObjects _ _ _ _)).
  apply instanceObjects_live. intros name q Hq. by rewrite lookup_empty in Hq.
Qed.

Lemma instanceObjects_live_at h0 h intrinsics debugName extraExports rest base :
  base = length h →
  h0 = h ++ instanceObjects intrinsics debugName extraExports base ++ rest →
  (∀ name q, extraExports !! name = Some q → q < length h) →
  liveInstance h0 (Some base).
Proof. intros -> ->. apply instanceObjects_live. Qed.

Lemma setUp_legacy_ready w :
  defs (memories (module w)) = [] →
  imports (memories (module w)) ≠ [] →
  imports (tables (module w)) ≠ [] →
  ∃ w', setUp w = Ok () w'
      ∧ isEmscripten (resolver w') = true
      ∧ liveInstance (compartment w') (emEnvModule (resolver w'))
      ∧ liveInstance (compartment w') (emAsm2wasmModule (resolver w'))
      ∧ liveInstance (compartment w') (emGlobalModule (resolver w')).
Proof.
  intros Hd Hm Ht.
  destruct (imports (memories (module w))) as [|mi mis] eqn:Em; [done |].
  destruct (imports (tables (module w))) as [|ti tis] eqn:Et; [done |].
  rewrite (setUp_legacy _ Hd). erewrite setUpEmscripten_Ok by done.
  eexists. split; [done |]. split; [done |].
  unfold afterSetUpEmscripten.
  cbn [compartment resolver emEnvModule emAsm2wasmModule emGlobalModule
       set_emGlobalModule set_emAsm2wasmModule set_emEnvModule with_resolver].
  set (h := compartment w).
  set (M := ObjMemory _). set (T := ObjTable _).
  set (I1 := instanceObjects getIntrinsicModule_emEnv _ _ _).
  set (I2 := instanceObjects getIntrinsicModule_emAsm2wasm _ _ _).
  set (I3 := instanceObjects getIntrinsicModule_emGlobal _ _ _).
  split; [| split].
  - eapply (instanceObjects_live_at _ (h ++ [M; T]) _ _ _ (I2 ++ I3)).
    + rewrite length_app. simpl. lia.
    + by rewrite <- app_assoc.
    + intros name q Hq. rewrite length_app. simpl.
      apply lookup_insert_Some in Hq as [[_ <-]|[_ Hq]]; [lia |].
      apply lookup_insert_Some in Hq as [[_ <-]|[_ Hq]]; [lia |].
      by rewrite lookup_empty in Hq.
  - eapply (instanceObjects_live_at _ (h ++ M :: T :: I1) _ _ _ I3).
    + rewrite length_app. cbn [length]. lia.
    + by rewrite <- app_assoc.
    + intros name q Hq. by rewrite lookup_empty in Hq.
  - eapply (instanceObjects_live_at _ (h ++ M :: T :: I1 ++ I2) _ _ _ []).
    + rewrite length_app. cbn [length]. rewrite length_app. lia.
    + rewrite app_nil_r, <- app_assoc. cbn [app]. by rewrite <- app_assoc.
    + intros name q Hq. by rewrite lookup_empty in Hq.
Qed.

(** ** The properties of the resolver *)

(** C3: [setUp] sets [isEmscripten] to [false] exactly when the module has
    at least one declared memory definition and to [true] otherwise; it then
    runs the standard path in the first case and the legacy path in the
    second, and the path that runs leaves alone what belongs to the other:
    the standard path the three legacy instances and the imports, the legacy
    path the standard [env] instance and the (empty) memory definitions. *)
Theorem setUp_classifies (w : World) :
  let w' := final (setUp w) in
  (isEmscripten (resolver w') = false ↔ defs (memories (module w)) ≠ [])
  ∧ (isEmscripten (resolver w') = true ↔ defs (memories (module w)) = [])
  ∧ (defs (memories (module w)) ≠ [] →
       setUp w = setUpStandardToolchain (with_resolver (set_isEmscripten false) w)
       ∧ completed (setUp w) = true
       ∧ emEnvModule (resolver w') = emEnvModule (resolver w)
       ∧ emAsm2wasmModule (resolver w') = emAsm2wasmModule (resolver w)
       ∧ emGlobalModule (resolver w') = emGlobalModule (resolver w)
       ∧ imports (memories (module w')) = imports (memories (module w))
       ∧ tables (module w') = tables (module w))
  ∧ (defs (memories (module w)) = [] →
       setUp w = setUpEmscripten (with_resolver (set_isEmscripten true) w)
       ∧ envModule (resolver w') = envModule (resolver w)
       ∧ defs (memories (module w')) = []).
Proof.
  intros w'. subst w'. rewrite setUp_final_flag.
  destruct (defs (memories (module w))) as [|d ds] eqn:Hd.
  - split; [| split; [| split]]; try done.
    intros _. rewrite (setUp_legacy _ Hd). split; [done |].
    destruct (imports (memories (module w))) as [|mi mis] eqn:Hm.
    { by rewrite setUpEmscripten_no_memory. }
    destruct (imports (tables (module w))) as [|ti tis] eqn:Ht.
    { by erewrite setUpEmscripten_no_table. }
    by erewrite setUpEmscripten_Ok.
  - split; [| split; [| split]]; try done.
    intros _. rewrite (setUp_standard _ _ _ Hd).
    by erewrite setUpStandardToolchain_Ok.
Qed.

(** C4: on the standard path (at least one declared memory) [setUp]
    completes, and the first declared memory then has minimum 15 * 16 = 240
    pages and maximum 1024 * 16 = 16384 pages, whatever its limits were. *)
Theorem setUp_standard_limits (w : World) :
  defs (memories (module w)) ≠ [] →
  ∃ w' d,
    setUp w = Ok () w'
    ∧ isEmscripten (resolver w') = false
    ∧ defs (memories (module w')) !! 0 = Some d
    ∧ size_min (memory_size (memdef_type d)) = (15 * 16)%Z
    ∧ size_max (memory_size (memdef_type d)) = (1024 * 16)%Z.
Proof.
  destruct (defs (memories (module w))) as [|d ds] eqn:Hd; [done | intros _].
  rewrite (setUp_standard _ _ _ Hd).
  erewrite setUpStandardToolchain_Ok by done.
  eexists _, _. repeat split.
Qed.

(** C5: on the legacy path (no declared memory; a first imported memory
    and a first imported table exist) [setUp] completes; the first imported
    memory then has minimum 1024 * 16 and maximum 2048 * 1024 * 16 pages,
    the first imported table minimum 40000000 and maximum 60000000
    elements, and the memory and the table created in the compartment carry
    exactly these rewritten types. *)
Theorem setUp_legacy_limits (w : World) :
  defs (memories (module w)) = [] →
  imports (memories (module w)) ≠ [] →
  imports (tables (module w)) ≠ [] →
  ∃ w' mi ti memory table,
    setUp w = Ok () w'
    ∧ isEmscripten (resolver w') = true
    ∧ imports (memories (module w')) !! 0 = Some mi
    ∧ size_min (memory_size (import_type mi)) = (1024 * 16)%Z
    ∧ size_max (memory_size (import_type mi)) = (2048 * 1024 * 16)%Z
    ∧ imports (tables (module w')) !! 0 = Some ti
    ∧ size_min (table_size (import_type ti)) = 40000000%Z
    ∧ size_max (table_size (import_type ti)) = 60000000%Z
    ∧ compartment w' !! length (compartment w) = Some (ObjMemory memory)
    ∧ memoryType memory = import_type mi
    ∧ compartment w' !! S (length (compartment w)) = Some (ObjTable table)
    ∧ tableType table = import_type ti.
Proof.
  intros Hd Hm Ht.
  destruct (imports (memories (module w))) as [|mi mis] eqn:Em; [done |].
  destruct (imports (tables (module w))) as [|ti tis] eqn:Et; [done |].
  rewrite (setUp_legacy _ Hd). erewrite setUpEmscripten_Ok by done.
  eexists _, _, _, _, _. split; [reflexivity |].
  split; [reflexivity |]. split; [reflexivity |].
  split; [reflexivity |]. split; [reflexivity |].
  split; [reflexivity |]. split; [reflexivity |]. split; [reflexivity |].
  split; [apply (legacy_memory_object (with_resolver _ w)) |].
  split; [reflexivity |].
  split; [apply (legacy_table_object (with_resolver _ w)) | reflexivity].
Qed.

(** C6: on the legacy path, after [setUp] the created memory holds, at
    byte offset 63 * 65536, the [MutableGlobals] block with
    [DYNAMICTOP_PTR] = 256 * 65536 (the stack ceiling), [_stderr] = 1,
    [_stdin] = 2 and [_stdout] = 3; the memory has its minimum committed,
    and the offset plus the size of the struct lies below that minimum in
    bytes. *)
Theorem setUp_legacy_globals (w : World) :
  defs (memories (module w)) = [] →
  imports (memories (module w)) ≠ [] →
  imports (tables (module w)) ≠ [] →
  ∃ w' memory,
    setUp w = Ok () w'
    ∧ compartment w' !! length (compartment w) = Some (ObjMemory memory)
    ∧ MutableGlobals.address = (63 * 65536)%Z
    ∧ load (length (compartment w)) 4
        (MutableGlobals.address + MutableGlobals.offset_DYNAMICTOP_PTR) w'
      = Some EMSCRIPTEN_STACK_MAX
    ∧ EMSCRIPTEN_STACK_MAX = (256 * 65536)%Z
    ∧ load (length (compartment w)) 4
        (MutableGlobals.address + MutableGlobals.offset__stderr) w' = Some 1%Z
    ∧ load (length (compartment w)) 4
        (MutableGlobals.address + MutableGlobals.offset__stdin) w' = Some 2%Z
    ∧ load (length (compartment w)) 4
        (MutableGlobals.address + MutableGlobals.offset__stdout) w' = Some 3%Z
    ∧ memoryNumPages memory = size_min (memory_size (memoryType memory))
    ∧ (MutableGlobals.address + MutableGlobals.sizeof
       < size_min (memory_size (memoryType memory)) * numBytesPerPage)%Z.
Proof.
  intros Hd Hm Ht.
  destruct (imports (memories (module w))) as [|mi mis] eqn:Em; [done |].
  destruct (imports (tables (module w))) as [|ti tis] eqn:Et; [done |].
  rewrite (setUp_legacy _ Hd). erewrite setUpEmscripten_Ok by done.
  eexists _, _. split; [reflexivity |].
  pose proof (legacy_memory_object (with_resolver (set_isEmscripten true) w)
                mi mis ti tis) as Hmem.
  simpl (length _) in Hmem.
  split; [exact Hmem |]. split; [reflexivity |].
  unfold load. rewrite !Hmem.
  repeat split; by vm_compute.
Qed.


(** A legacy module without an imported memory (or without an imported
    table) takes [setUp] into the unchecked element access. *)
Lemma setUp_legacy_no_memory w :
  defs (memories (module w)) = [] →
  imports (memories (module w)) = [] →
  setUp w = Crash VectorOutOfRange (with_resolver (set_isEmscripten true) w).
Proof.
  intros Hd Hm. rewrite (setUp_legacy _ Hd). by apply setUpEmscripten_no_memory.
Qed.

Lemma setUp_legacy_no_table w mi mis :
  defs (memories (module w)) = [] →
  imports (memories (module w)) = mi :: mis →
  imports (tables (module w)) = [] →
  setUp w =
    Crash VectorOutOfRange
      (with_module
         (with_memory_imports (import_with_type legacyMemoryType mi :: mis))
         (with_resolver (set_isEmscripten true) w)).
Proof.
  intros Hd Hm Ht. rewrite (setUp_legacy _ Hd).
  by apply setUpEmscripten_no_table.
Qed.

(** The module names a path accepts hold no NUL. *)
Lemma c_str_allowed emscripten moduleName :
  allowedModuleName emscripten moduleName → c_str moduleName = moduleName.
Proof.
  unfold allowedModuleName. destruct emscripten; [| by intros ->].
  rewrite !elem_of_cons, elem_of_nil. by intros [->|[->|[->|[->|[]]]]].
Qed.

(** C7: for a module name the active path accepts, whose instance is
    live, [resolve] completes and returns [true] exactly when that instance
    exports [exportName] and the exported object passes the type test
    against the declared type; the object is then the resolved one and
    nothing is logged.  An export that fails the test makes [resolve]
    return [false] after logging the names, the actual and the expected
    type; a missing export makes it return [false] after logging the names
    and the expected type.  The export name of the mismatch record and
    the printed types go to the logger as C strings. *)
Theorem resolve_type_checked (w : World) (moduleName exportName : string)
    (type : ExternType) (resolved : option ptr) (inst : ptr) (mi : ModuleInstance) :
  allowedModuleName (isEmscripten (resolver w)) moduleName →
  collectionFor (resolver w) moduleName = Some inst →
  compartment w !! inst = Some (ObjInstance mi) →
  (∀ p, exportMap mi !! exportName = Some p → is_Some (compartment w !! p)) →
  completed (resolve moduleName exportName type resolved w) = true
  ∧ ((∃ r w', resolve moduleName exportName type resolved w = Ok (true, r) w')
     ↔ ∃ p o, exportMap mi !! exportName = Some p
              ∧ compartment w !! p = Some o ∧ isA o type = true)
  ∧ (∀ p o, exportMap mi !! exportName = Some p →
            compartment w !! p = Some o → isA o type = true →
            resolve moduleName exportName type resolved w = Ok (true, Some p) w)
  ∧ (∀ p o, exportMap mi !! exportName = Some p →
            compartment w !! p = Some o → isA o type = false →
            resolve moduleName exportName type resolved w =
              Ok (false, Some p)
                 (logged "Resolved import {}.{} to a {}, but was expecting {}"
                    [moduleName; c_str exportName;
                     c_str (asString (getObjectType o)); c_str (asString type)] w))
  ∧ (exportMap mi !! exportName = None →
     resolve moduleName exportName type resolved w =
       Ok (false, None)
          (logged "Missing import {}.{} {}"
             [moduleName; exportName; c_str (asString type)] w)).
Proof.
  intros Hallowed Hsel Hinst Hlive.
  rewrite (resolve_selected _ _ _ _ _ _ _ Hallowed Hsel Hinst).
  rewrite (c_str_allowed _ _ Hallowed).
  destruct (exportMap mi !! exportName) as [p|] eqn:Hp.
  - destruct (Hlive p eq_refl) as [o Ho]. rewrite Ho.
    destruct (isA o type) eqn:HisA.
    + split; [done |]. split; [| split; [| split]]; try done.
      * split; [intros _; by exists p, o | intros _; by eexists _, _].
      * intros p' o' [= <-]. congruence.
      * intros p' o' [= <-]. congruence.
    + split; [done |]. split; [| split; [| split]]; try done.
      * split; [by intros (? & ? & [=]) |].
        intros (p' & o' & [= <-] & ? & ?). congruence.
      * intros p' o' [= <-]. congruence.
      * intros p' o' [= <-] ? _. congruence.
  - split; [done |]. split; [| split; [| split]]; try done.
    split; [by intros (? & ? & [=]) | by intros (? & ? & [=] & _)].
Qed.

(** C8: [cleanUp] completes from every state and empties the four held
    instance references; run again it completes and changes nothing, so
    two consecutive [cleanUp]s come to one; on a resolver fresh from its
    constructor it completes and leaves the state as it was. *)
Theorem cleanUp_idempotent (w : World) :
  ∃ w', cleanUp w = Ok () w'
    ∧ envModule (resolver w') = None
    ∧ emEnvModule (resolver w') = None
    ∧ emAsm2wasmModule (resolver w') = None
    ∧ emGlobalModule (resolver w') = None
    ∧ cleanUp w' = Ok () w'
    ∧ (cleanUp;; cleanUp) w = cleanUp w
    ∧ ∀ m h l,
        cleanUp {| resolver := RootResolver_new; module := m;
                   compartment := h; logger := l |}
        = Ok () {| resolver := RootResolver_new; module := m;
                   compartment := h; logger := l |}.
Proof. eexists. rewrite cleanUp_Ok. repeat split. Qed.

(** C9: [isEmscripten] is written by [setUp] only.  A [resolve] and a
    [cleanUp] leave it as it is, and so does every sequence of calls
    without a [setUp]: after such a sequence on a resolver that has been set
    up the flag is still the one [setUp] chose for the module.  What a
    [resolve] returns is a function of the compartment and of the instance
    the flag selects: two resolvers with the same flag that agree on the
    instances that flag selects return the same. *)
Theorem isEmscripten_read_only :
  (∀ moduleName exportName type resolved w,
     isEmscripten (resolver (final (resolve moduleName exportName type resolved w)))
     = isEmscripten (resolver w))
  ∧ (∀ w, isEmscripten (resolver (final (cleanUp w))) = isEmscripten (resolver w))
  ∧ (∀ cs w0,
       Forall (λ c, isSetUp c = false) cs →
       isEmscripten (resolver (final (run cs (final (setUp w0))).2))
       = bool_decide (defs (memories (module w0)) = []))
  ∧ (∀ moduleName exportName type resolved w w',
       compartment w = compartment w' →
       isEmscripten (resolver w) = isEmscripten (resolver w') →
       (if isEmscripten (resolver w)
        then emEnvModule (resolver w) = emEnvModule (resolver w')
             ∧ emAsm2wasmModule (resolver w) = emAsm2wasmModule (resolver w')
             ∧ emGlobalModule (resolver w) = emGlobalModule (resolver w')
        else envModule (resolver w) = envModule (resolver w')) →
       value (resolve moduleName exportName type resolved w)
       = value (resolve moduleName exportName type resolved w')).
Proof.
  split; [| split; [| split]].
  - intros. apply logsOnly_flag, resolve_frame.
  - done.
  - intros cs w0 Hcs. by rewrite run_flag, setUp_final_flag.
  - intros moduleName exportName type resolved w w' Hc Hf Hsel.
    rewrite !resolve_value, Hc. f_equal. unfold lookedUp. rewrite <- Hf.
    destruct (isEmscripten (resolver w)).
    + destruct Hsel as (-> & -> & ->). done.
    + by rewrite Hsel.
Qed.

(** C10: the [user] member never shows.  Two sequences of calls that are
    the same once their [setUser] calls are left out, started in states
    that differ at most in [user], yield the same observations (every
    [resolve]'s result and resolved object), end the same way, and end in
    states that differ at most in [user]. *)
Theorem user_has_no_effect (cs1 cs2 : list Call) (w1 w2 : World) :
  withoutSetUser cs1 = withoutSetUser cs2 →
  forgetUser w1 = forgetUser w2 →
  (run cs1 w1).1 = (run cs2 w2).1
  ∧ outcome_map forgetUser (run cs1 w1).2 = outcome_map forgetUser (run cs2 w2).2.
Proof.
  intros Hcs Hw.
  destruct (run_forgetUser cs1 w1) as [H1 H1'].
  destruct (run_forgetUser cs2 w2) as [H2 H2'].
  rewrite <- H1, <- H2, <- H1', <- H2', Hcs, Hw. done.
Qed.

(** * Further properties of the operations *)

(** ** [setUp] by cases on the module *)

Lemma setUp_cases w :
  (∃ d ds, defs (memories (module w)) = d :: ds
     ∧ setUp w
       = Ok () (afterSetUpStandardToolchain
                  (with_resolver (set_isEmscripten false) w) d ds))
  ∨ (defs (memories (module w)) = []
     ∧ imports (memories (module w)) = []
     ∧ setUp w
       = Crash VectorOutOfRange (with_resolver (set_isEmscripten true) w))
  ∨ (∃ mi mis, defs (memories (module w)) = []
       ∧ imports (memories (module w)) = mi :: mis
       ∧ imports (tables (module w)) = []
       ∧ setUp w
         = Crash VectorOutOfRange
             (with_module
                (with_memory_imports (import_with_type legacyMemoryType mi :: mis))
                (with_resolver (set_isEmscripten true) w)))
  ∨ (∃ mi mis ti tis, defs (memories (module w)) = []
       ∧ imports (memories (module w)) = mi :: mis
       ∧ imports (tables (module w)) = ti :: tis
       ∧ setUp w
         = Ok () (afterSetUpEmscripten
                    (with_resolver (set_isEmscripten true) w) mi mis ti tis)).
Proof.
  destruct (defs (memories (module w))) as [|d ds] eqn:Hd.
  - destruct (imports (memories (module w))) as [|mi mis] eqn:Hm.
    { right. left. split; [done |]. split; [done |].
      by apply setUp_legacy_no_memory. }
    destruct (imports (tables (module w))) as [|ti tis] eqn:Ht.
    { right. right. left. exists mi, mis. split; [done |]. split; [done |].
      split; [done |]. by apply setUp_legacy_no_table. }
    right. right. right. exists mi, mis, ti, tis.
    split; [done |]. split; [done |]. split; [done |].
    rewrite (setUp_legacy _ Hd). by apply setUpEmscripten_Ok.
  - left. exists d, ds. split; [done |].
    rewrite (setUp_standard _ _ _ Hd). by apply setUpStandardToolchain_Ok.
Qed.

(** X1: [setUp] runs to its end exactly on the modules that have a declared
    memory, or else both an imported memory and an imported table; on every
    other module it stops at an unchecked access to an empty vector. *)
Theorem setUp_completes_iff (w : World) :
  (completed (setUp w) = true
   ↔ defs (memories (module w)) ≠ []
     ∨ (imports (memories (module w)) ≠ [] ∧ imports (tables (module w)) ≠ []))
  ∧ (completed (setUp w) = false
     → ∃ w', setUp w = Crash VectorOutOfRange w').
Proof.
  destruct (setUp_cases w)
    as [(d & ds & Hd & ->)
       |[(Hd & Hm & ->)
        |[(mi & mis & Hd & Hm & Ht & ->)
         |(mi & mis & ti & tis & Hd & Hm & Ht & ->)]]];
    rewrite ?Hd, ?Hm, ?Ht; simpl; (split; [split |]); try done;
    try (intros _; by eexists); try (intros _; by left);
    try (intros _; by right); try (intros [H|[H1 H2]]; done).
Qed.

(** X2: on a module without a declared memory that imports a memory but no
    table, [setUp] stops at the access to the first imported table after it
    has already overwritten the limits of the first imported memory; the
    flag is set, while the compartment, the instance references and the
    logger are as before. *)
Theorem setUp_without_table_import (w : World) :
  defs (memories (module w)) = [] →
  imports (memories (module w)) ≠ [] →
  imports (tables (module w)) = [] →
  ∃ w' mi,
    setUp w = Crash VectorOutOfRange w'
    ∧ isEmscripten (resolver w') = true
    ∧ imports (memories (module w')) !! 0 = Some mi
    ∧ size_min (memory_size (import_type mi)) = (1024 * 16)%Z
    ∧ size_max (memory_size (import_type mi)) = (2048 * 1024 * 16)%Z
    ∧ compartment w' = compartment w
    ∧ emEnvModule (resolver w') = emEnvModule (resolver w)
    ∧ emAsm2wasmModule (resolver w') = emAsm2wasmModule (resolver w)
    ∧ emGlobalModule (resolver w') = emGlobalModule (resolver w)
    ∧ logger w' = logger w.
Proof.
  intros Hd Hm Ht.
  destruct (imports (memories (module w))) as [|mi mis] eqn:Em; [done |].
  rewrite (setUp_legacy_no_table _ _ _ Hd Em Ht).
  eexists _, _. repeat split.
Qed.

(** X3: [setUp] only ever adds to the compartment: whatever the module and
    however the call ends, every object that was in the compartment is
    still there, unchanged and at the same place. *)
Theorem setUp_keeps_objects (w : World) :
  compartment w `prefix_of` compartment (final (setUp w)).
Proof.
  destruct (setUp_cases w)
    as [(d & ds & Hd & ->)
       |[(Hd & Hm & ->)
        |[(mi & mis & Hd & Hm & Ht & ->)
         |(mi & mis & ti & tis & Hd & Hm & Ht & ->)]]]; simpl;
    try done; by eexists.
Qed.

(** X4: [setUp] writes nothing to the logger, whatever the module and
    however the call ends; in particular a missing import section goes
    unreported. *)
Theorem setUp_logs_nothing (w : World) :
  logger (final (setUp w)) = logger w.
Proof.
  destruct (setUp_cases w)
    as [(d & ds & Hd & ->)
       |[(Hd & Hm & ->)
        |[(mi & mis & Hd & Hm & Ht & ->)
         |(mi & mis & ti & tis & Hd & Hm & Ht & ->)]]]; reflexivity.
Qed.

Lemma afterSetUpStandardToolchain_grows w d ds :
  ∃ k, compartment (afterSetUpStandardToolchain w d ds) = compartment w ++ k
       ∧ 0 < length k.
Proof. eexists. split; [reflexivity |]. rewrite instanceObjects_length. lia. Qed.

Lemma afterSetUpEmscripten_grows w mi mis ti tis :
  ∃ k, compartment (afterSetUpEmscripten w mi mis ti tis) = compartment w ++ k
       ∧ 0 < length k.
Proof. eexists. split; [reflexivity |]. simpl. lia. Qed.

Lemma afterSetUpStandardToolchain_flag w d ds :
  isEmscripten (resolver (afterSetUpStandardToolchain w d ds))
  = isEmscripten (resolver w).
Proof. reflexivity. Qed.

Lemma afterSetUpEmscripten_flag w mi mis ti tis :
  isEmscripten (resolver (afterSetUpEmscripten w mi mis ti tis))
  = isEmscripten (resolver w).
Proof. reflexivity. Qed.

Lemma standardDef_idem d : standardDef (standardDef d) = standardDef d.
Proof. by destruct d as [[? []]]. Qed.

Lemma legacyMemoryType_idem t : legacyMemoryType (legacyMemoryType t) = legacyMemoryType t.
Proof. by destruct t as [? []]. Qed.

Lemma legacyTableType_idem t : legacyTableType (legacyTableType t) = legacyTableType t.
Proof. by destruct t as [? ? []]. Qed.

(** X5: a [setUp] that has completed can be run again: the second run
    completes as well, takes the same path, leaves the module exactly as
    the first run left it, and instantiates its objects anew behind the
    ones of the first run, which stay in the compartment. *)
Theorem setUp_again (w : World) :
  completed (setUp w) = true →
  ∃ w1 w2,
    setUp w = Ok () w1
    ∧ setUp w1 = Ok () w2
    ∧ module w2 = module w1
    ∧ isEmscripten (resolver w2) = isEmscripten (resolver w1)
    ∧ compartment w1 `prefix_of` compartment w2
    ∧ length (compartment w1) < length (compartment w2).
Proof.
  destruct (setUp_cases w)
    as [(d & ds & Hd & ->)
       |[(Hd & Hm & ->)
        |[(mi & mis & Hd & Hm & Ht & ->)
         |(mi & mis & ti & tis & Hd & Hm & Ht & ->)]]]; try done; intros _.
  - set (w1 := afterSetUpStandardToolchain _ d ds).
    assert (Hd1 : defs (memories (module w1)) = standardDef d :: ds)
      by reflexivity.
    assert (Hf1 : isEmscripten (resolver w1) = false)
      by apply afterSetUpStandardToolchain_flag.
    clearbody w1. exists w1. eexists. split; [reflexivity |].
    split.
    { rewrite (setUp_standard _ _ _ Hd1).
      by apply setUpStandardToolchain_Ok. }
    split; [| split; [| split]].
    + destruct w1 as [r [[mim md] mt] h l]. simpl in *. subst md.
      by rewrite standardDef_idem.
    + by rewrite Hf1.
    + by eexists.
    + cbn. rewrite length_app, instanceObjects_length. lia.
  - set (w1 := afterSetUpEmscripten _ mi mis ti tis).
    assert (Hd1 : defs (memories (module w1)) = []) by exact Hd.
    assert (Hm1 : imports (memories (module w1))
                  = import_with_type legacyMemoryType mi :: mis) by reflexivity.
    assert (Ht1 : imports (tables (module w1))
                  = import_with_type legacyTableType ti :: tis) by reflexivity.
    assert (Hf1 : isEmscripten (resolver w1) = true)
      by apply afterSetUpEmscripten_flag.
    clearbody w1. exists w1. eexists. split; [reflexivity |].
    split.
    { rewrite (setUp_legacy _ Hd1). by apply setUpEmscripten_Ok. }
    split; [| split; [| split]].
    + destruct w1 as [r [[mim md] [tim td]] h l]. simpl in *. subst mim tim.
      destruct mi as [mt mn me], ti as [tt tn te].
      unfold import_with_type. simpl.
      by rewrite legacyMemoryType_idem, legacyTableType_idem.
    + by rewrite Hf1.
    + by eexists.
    + cbn. rewrite length_app. cbn. lia.
Qed.


(** ** [resolve] in full *)

Lemma typeTest_outcome moduleName exportName type (x : option ptr) w :
  match x with
  | Some p =>
      o ← deref p;
      if isA o type then mret (true, x)
      else
        (log_error "Resolved import {}.{} to a {}, but was expecting {}"
           [c_str moduleName; c_str exportName;
            c_str (asString (getObjectType o)); c_str (asString type)];;
         mret (false, x))
  | None =>
      log_error "Missing import {}.{} {}" [moduleName; exportName; c_str (asString type)];;
      mret (false, x)
  end w
  = typeTestOutcome moduleName exportName type x w.
Proof.
  destruct x as [p|]; [| reflexivity].
  unfold typeTestOutcome, deref, mbind, M_bind.
  destruct (compartment w !! p) as [o|]; [| reflexivity].
  by destruct (isA o type).
Qed.

Lemma resolve_outcome moduleName exportName type resolved w :
  resolve moduleName exportName type resolved w =
    match lookedUp (resolver w) moduleName with
    | Some inst =>
        match exportOf (compartment w) inst exportName with
        | inl f => Crash f w
        | inr x => typeTestOutcome moduleName exportName type x w
        end
    | None =>
        typeTestOutcome moduleName exportName type resolved
          (logged "Unrecognised module: {}" [moduleName] w)
    end.
Proof.
  unfold resolve, lookedUp. rewrite bind_member.
  destruct (isEmscripten (resolver w)); repeat case_decide;
    try (rewrite lookup_value;
         match goal with
         | |- context [exportOf ?h ?i ?n] => destruct (exportOf h i n)
         end; [reflexivity | apply typeTest_outcome]).
  rewrite bind_Ok with (a := resolved)
    (w' := logged "Unrecognised module: {}" [moduleName] w) by reflexivity.
  apply typeTest_outcome.
Qed.

Lemma lookedUp_accepted r moduleName :
  isEmscripten r = false ∨ allowedModuleName true moduleName →
  lookedUp r moduleName = Some (collectionFor r moduleName).
Proof.
  unfold lookedUp, collectionFor, allowedModuleName.
  rewrite !elem_of_cons, elem_of_nil.
  destruct (isEmscripten r); [| done].
  intros [?|?]; [done |]. repeat case_decide; try done. tauto.
Qed.

Lemma typeTestOutcome_true moduleName exportName type x w r w' :
  typeTestOutcome moduleName exportName type x w = Ok (true, r) w' →
  w' = w ∧ r = x
  ∧ ∃ p o, x = Some p ∧ compartment w !! p = Some o ∧ isA o type = true.
Proof.
  unfold typeTestOutcome. destruct x as [p|]; [| done].
  destruct (compartment w !! p) as [o|] eqn:Hp; [| done].
  destruct (isA o type) eqn:HisA; [| done].
  intros [= <- <-]. split; [done |]. split; [done |]. by exists p, o.
Qed.

Lemma typeTestOutcome_false moduleName exportName type x w r w' :
  typeTestOutcome moduleName exportName type x w = Ok (false, r) w' →
  r = x
  ∧ ((x = None
      ∧ w' = logged "Missing import {}.{} {}"
               [moduleName; exportName; c_str (asString type)] w)
     ∨ ∃ p o, x = Some p ∧ compartment w !! p = Some o ∧ isA o type = false
            ∧ w' = logged "Resolved import {}.{} to a {}, but was expecting {}"
                     [c_str moduleName; c_str exportName;
                      c_str (asString (getObjectType o)); c_str (asString type)] w).
Proof.
  unfold typeTestOutcome. destruct x as [p|].
  - destruct (compartment w !! p) as [o|] eqn:Hp; [| done].
    destruct (isA o type) eqn:HisA; [done |].
    intros [= <- <-]. split; [done |]. right. by exists p, o.
  - intros [= <- <-]. split; [done |]. by left.
Qed.

Lemma lookedUp_unrecognised r moduleName :
  isEmscripten r = true →
  ¬ allowedModuleName true moduleName →
  lookedUp r moduleName = None.
Proof.
  unfold lookedUp, allowedModuleName. rewrite !elem_of_cons, elem_of_nil.
  intros -> Hna. repeat case_decide; try done; exfalso; tauto.
Qed.

(** C1, as the code has it.  On the standard path [resolve] does not look
    at [moduleName]: whatever the name, it looks [exportName] up in the
    standard [env] instance (faulting on an empty reference), applies the
    type test and returns what it returns for ["env"]; the name only shows
    in the diagnostics, and no name is ever logged as unrecognised.  On the
    legacy path a name other than ["env"], ["asm2wasm"], ["global"] and
    ["global.Math"] is logged as unrecognised, whatever the incoming
    [resolved]; no lookup is made: [resolved] goes out as it came in and
    the call behaves the same whatever the four instance references hold.
    With an empty incoming [resolved] the call then logs the missing
    import and returns [false] with [resolved] still empty. *)
Theorem resolve_module_name :
  (∀ moduleName exportName type resolved w,
     isEmscripten (resolver w) = false →
     value (resolve moduleName exportName type resolved w)
     = value (resolve "env" exportName type resolved w)
     ∧ (envModule (resolver w) = None →
        resolve moduleName exportName type resolved w = Crash NullPointer w)
     ∧ (∀ inst mi,
          envModule (resolver w) = Some inst →
          compartment w !! inst = Some (ObjInstance mi) →
          resolve moduleName exportName type resolved w =
            match exportMap mi !! exportName with
            | Some p =>
                match compartment w !! p with
                | Some o =>
                    if isA o type then Ok (true, Some p) w
                    else Ok (false, Some p)
                           (logged
                              "Resolved import {}.{} to a {}, but was expecting {}"
                              [c_str moduleName; c_str exportName;
                               c_str (asString (getObjectType o));
                               c_str (asString type)] w)
                | None => Crash NullPointer w
                end
            | None =>
                Ok (false, None)
                   (logged "Missing import {}.{} {}"
                      [moduleName; exportName; c_str (asString type)] w)
            end))
  ∧ (∀ moduleName exportName type resolved w,
       isEmscripten (resolver w) = true →
       ¬ allowedModuleName true moduleName →
       (∃ l, logger (final (resolve moduleName exportName type resolved w))
             = logger w ++ error "Unrecognised module: {}" [moduleName] :: l)
       ∧ (∀ b r w',
            resolve moduleName exportName type resolved w = Ok (b, r) w' →
            r = resolved)
       ∧ (∀ env emEnv emAsm2wasm emGlobal,
            resolve moduleName exportName type resolved
              (with_instances env emEnv emAsm2wasm emGlobal w)
            = outcome_map (with_instances env emEnv emAsm2wasm emGlobal)
                (resolve moduleName exportName type resolved w))
       ∧ (resolved = None →
          resolve moduleName exportName type resolved w =
            Ok (false, None)
               (logged "Missing import {}.{} {}"
                  [moduleName; exportName; c_str (asString type)]
                  (logged "Unrecognised module: {}" [moduleName] w)))).
Proof.
  split.
  - intros moduleName exportName type resolved w Hf.
    split; [| split].
    + rewrite !resolve_value. unfold lookedUp. by rewrite Hf.
    + intros Hnull. rewrite resolve_outcome. unfold lookedUp.
      by rewrite Hf, Hnull.
    + intros inst mi Hinst Hmi. rewrite resolve_outcome. unfold lookedUp.
      rewrite Hf, Hinst. unfold exportOf. rewrite Hmi.
      by destruct (exportMap mi !! exportName).
  - intros moduleName exportName type resolved w Hf Hna.
    pose proof (lookedUp_unrecognised _ _ Hf Hna) as Hnone.
    split; [| split; [| split]].
    + rewrite resolve_outcome, Hnone. unfold typeTestOutcome.
      destruct resolved as [p|].
      * simpl (compartment _).
        destruct (compartment w !! p) as [o|]; [destruct (isA o type) |];
          simpl; eexists; first [reflexivity | by rewrite <- app_assoc].
      * simpl. eexists. by rewrite <- app_assoc.
    + intros b r w'. rewrite resolve_outcome, Hnone.
      unfold typeTestOutcome. destruct resolved as [p|]; [| by intros [= _ <- _]].
      cbn. destruct (compartment w !! p) as [o|]; [| done].
      by destruct (isA o type); intros [= _ <- _].
    + intros env emEnv emAsm2wasm emGlobal.
      rewrite !resolve_outcome, Hnone.
      rewrite (lookedUp_unrecognised _ moduleName) by done.
      unfold typeTestOutcome. destruct resolved as [p|]; [| done].
      cbn. destruct (compartment w !! p) as [o|]; [| done].
      by destruct (isA o type).
    + intros ->. by rewrite resolve_outcome, Hnone.
Qed.

(** X8: [resolve] never fails silently: whenever it returns [false] the
    logger has grown, and its last record is either the missing-import
    record, with the module name, the export name and the expected type,
    or the type-mismatch record, with the module name, the export name,
    the actual and the expected type, each as the C string the code passes;
    before it comes at most the record of an unrecognised module. *)
Theorem resolve_false_reported (moduleName exportName : string)
    (type : ExternType) (resolved r : option ptr) (w w' : World) :
  resolve moduleName exportName type resolved w = Ok (false, r) w' →
  ∃ l,
    (l = [] ∨ l = [error "Unrecognised module: {}" [moduleName]])
    ∧ ((r = None
        ∧ logger w'
          = logger w ++ l
            ++ [error "Missing import {}.{} {}"
                  [moduleName; exportName; c_str (asString type)]])
       ∨ ∃ p o, r = Some p ∧ compartment w !! p = Some o ∧ isA o type = false
              ∧ logger w'
                = logger w ++ l
                  ++ [error "Resolved import {}.{} to a {}, but was expecting {}"
                        [c_str moduleName; c_str exportName;
                         c_str (asString (getObjectType o));
                         c_str (asString type)]]).
Proof.
  rewrite resolve_outcome.
  destruct (lookedUp (resolver w) moduleName) as [inst|].
  - destruct (exportOf (compartment w) inst exportName) as [f|x]; [done |].
    intros (-> & [(-> & ->)|(p & o & -> & Hp & HisA & ->)])%typeTestOutcome_false;
      exists []; (split; [by left |]).
    + by left.
    + right. by exists p, o.
  - intros (-> & [(-> & ->)|(p & o & -> & Hp & HisA & ->)])%typeTestOutcome_false;
      exists [error "Unrecognised module: {}" [moduleName]];
      (split; [by right |]).
    + left. split; [done |]. simpl. by rewrite <- app_assoc.
    + right. exists p, o. split; [done |]. split; [exact Hp |].
      split; [done |]. simpl. by rewrite <- app_assoc.
Qed.

(** X7: [resolve] never reports success on nothing or on an object of the
    wrong type: whatever the state, the names and the incoming [resolved],
    when it returns [true] the outgoing [resolved] points at an object of the
    compartment that passes the type test against the declared type, and
    the resolver, the module and the compartment are as before. *)
Theorem resolve_true_sound (moduleName exportName : string) (type : ExternType)
    (resolved r : option ptr) (w w' : World) :
  resolve moduleName exportName type resolved w = Ok (true, r) w' →
  (∃ p o, r = Some p ∧ compartment w' !! p = Some o ∧ isA o type = true)
  ∧ resolver w' = resolver w
  ∧ module w' = module w
  ∧ compartment w' = compartment w.
Proof.
  rewrite resolve_outcome.
  destruct (lookedUp (resolver w) moduleName) as [inst|].
  - destruct (exportOf (compartment w) inst exportName) as [f|x]; [done |].
    intros (-> & -> & p & o & -> & Hp & HisA)%typeTestOutcome_true.
    split; [by exists p, o | done].
  - intros (-> & -> & p & o & -> & Hp & HisA)%typeTestOutcome_true.
    split; [by exists p, o | done].
Qed.

(** X9: a resolver whose instance references are empty cannot resolve: on
    a resolver fresh from its constructor, and after a [cleanUp], every
    [resolve] that looks a name up (any name on the standard path, an
    accepted name on the legacy path) dereferences the empty reference and
    faults, leaving the state as it was with nothing logged. *)
Theorem resolve_without_instances (moduleName exportName : string)
    (type : ExternType) (resolved : option ptr) :
  (∀ m h l,
     resolve moduleName exportName type resolved
       {| resolver := RootResolver_new; module := m;
          compartment := h; logger := l |}
     = Crash NullPointer
         {| resolver := RootResolver_new; module := m;
            compartment := h; logger := l |})
  ∧ (∀ w,
       isEmscripten (resolver w) = false ∨ allowedModuleName true moduleName →
       resolve moduleName exportName type resolved (final (cleanUp w))
       = Crash NullPointer (final (cleanUp w))).
Proof.
  split.
  - intros m h l. by rewrite resolve_outcome.
  - intros w Hacc. rewrite resolve_outcome, lookedUp_accepted by done.
    unfold collectionFor. simpl.
    by destruct (isEmscripten (resolver w)); repeat case_decide.
Qed.

(** X10: ["global"] and ["global.Math"] stand for the same collection:
    whatever the state, a [resolve] under one name returns what it returns
    under the other. *)
Theorem resolve_global_alias (exportName : string) (type : ExternType)
    (resolved : option ptr) (w : World) :
  value (resolve "global" exportName type resolved w)
  = value (resolve "global.Math" exportName type resolved w).
Proof.
  rewrite !resolve_value. unfold lookedUp.
  destruct (isEmscripten (resolver w)); [| done].
  repeat case_decide; try done; exfalso; tauto.
Qed.

(** X11: for a name that is looked up (any name on the standard path, an
    accepted name on the legacy path) the incoming value of the reference
    parameter [resolved] is overwritten before it is read: the call behaves
    the same whatever the caller passed. *)
Theorem resolve_overwrites_resolved (moduleName exportName : string)
    (type : ExternType) (resolved resolved' : option ptr) (w : World) :
  isEmscripten (resolver w) = false ∨ allowedModuleName true moduleName →
  resolve moduleName exportName type resolved w
  = resolve moduleName exportName type resolved' w.
Proof.
  intros Hacc. by rewrite !resolve_outcome, lookedUp_accepted.
Qed.

(** X12: resolving one import does not change what resolving another
    returns: a [resolve] returns the same after any other [resolve] as
    before it, with names, type and incoming [resolved] of both calls
    arbitrary. *)
Theorem resolve_undisturbed (moduleName exportName : string) (type : ExternType)
    (resolved : option ptr) (moduleName' exportName' : string)
    (type' : ExternType) (resolved' : option ptr) (w : World) :
  value (resolve moduleName exportName type resolved
           (final (resolve moduleName' exportName' type' resolved' w)))
  = value (resolve moduleName exportName type resolved w).
Proof.
  rewrite !resolve_value.
  by destruct (resolve_frame moduleName' exportName' type' resolved' w) as [l ->].
Qed.

(** ** From the provider's collections to what [resolve] returns *)

Lemma instanceObjects_export h0 h intrinsics debugName extraExports rest base name :
  base = length h →
  h0 = h ++ instanceObjects intrinsics debugName extraExports base ++ rest →
  ∃ x, exportOf h0 (Some base) name = inr x
     ∧ match extraExports !! name, intrinsics !! name with
       | Some q, _ => x = Some q
       | None, Some i => ∃ q, x = Some q ∧ h0 !! q = Some (ObjIntrinsic name i)
       | None, None => x = None
       end.
Proof.
  intros -> ->. unfold exportOf, instanceObjects. cbn zeta. cbn [app].
  rewrite list_lookup_middle by done. eexists. split; [reflexivity |].
  set (entries := map_to_list intrinsics).
  assert (Hfst : (zip entries.*1 (seq (S (length h)) (length entries))).*1
                 = entries.*1).
  { apply fst_zip. by rewrite length_fmap, length_seq. }
  simpl. destruct (extraExports !! name) as [q|] eqn:Hextra.
  { by apply lookup_union_Some_l. }
  rewrite lookup_union_r by done.
  destruct (intrinsics !! name) as [i|] eqn:Hi.
  - apply elem_of_map_to_list, list_elem_of_lookup_1 in Hi as [idx Hidx].
    fold entries in Hidx.
    pose proof (lookup_lt_Some _ _ _ Hidx) as Hlt.
    exists (S (length h) + idx). split.
    + apply elem_of_list_to_map_1.
      { rewrite Hfst. apply NoDup_fst_map_to_list. }
      apply list_elem_of_lookup. exists idx. apply lookup_zip_Some. split.
      * by rewrite list_lookup_fmap, Hidx.
      * by apply lookup_seq_lt.
    + replace (S (length h) + idx) with (length h + S idx) by lia.
      rewrite lookup_past. simpl.
      apply lookup_app_l_Some. by rewrite list_lookup_fmap, Hidx.
  - apply not_elem_of_list_to_map_1. rewrite Hfst.
    intros ([n i] & -> & Hin)%list_elem_of_fmap.
    apply elem_of_map_to_list in Hin. simpl in Hi. congruence.
Qed.

Lemma typeTestOutcome_found moduleName exportName type p o w :
  compartment w !! p = Some o →
  typeTestOutcome moduleName exportName type (Some p) w
  = verdict moduleName exportName type p o w.
Proof. intros H. unfold typeTestOutcome, verdict. by rewrite H. Qed.

(** What a [resolve] in [w] yields when its lookup goes to the instance
    at [base], instantiated from [intrinsics] with [extraExports]. *)
Lemma resolve_in_instance w h intrinsics debugName extraExports rest base
    moduleName exportName type resolved :
  lookedUp (resolver w) moduleName = Some (Some base) →
  base = length h →
  compartment w = h ++ instanceObjects intrinsics debugName extraExports base ++ rest →
  match extraExports !! exportName, intrinsics !! exportName with
  | Some q, _ =>
      resolve moduleName exportName type resolved w
      = typeTestOutcome moduleName exportName type (Some q) w
  | None, Some i =>
      ∃ p, compartment w !! p = Some (ObjIntrinsic exportName i)
         ∧ resolve moduleName exportName type resolved w
           = verdict moduleName exportName type p (ObjIntrinsic exportName i) w
  | None, None =>
      resolve moduleName exportName type resolved w
      = missing moduleName exportName type w
  end.
Proof.
  intros Hsel Hbase Hheap. rewrite resolve_outcome, Hsel.
  destruct (instanceObjects_export _ _ _ _ _ _ _ exportName Hbase Hheap)
    as (x & -> & Hx).
  destruct (extraExports !! exportName) as [q|].
  { by subst x. }
  destruct (intrinsics !! exportName) as [i|].
  - destruct Hx as (q & -> & Hq). exists q. split; [done |].
    by apply typeTestOutcome_found.
  - by subst x.
Qed.

(** X13: after [setUp] on a module with a declared memory, [resolve] is
    decided by the provider's standard collection alone, whatever the module
    name: an export name the collection holds resolves to the object
    instantiated from that intrinsic, with success or a type-mismatch
    report according to the type test; any other export name is reported
    missing. *)
Theorem resolve_after_standard_setUp (w : World) :
  defs (memories (module w)) ≠ [] →
  ∃ w', setUp w = Ok () w'
    ∧ ∀ moduleName exportName type resolved,
        match getIntrinsicModule_env !! exportName with
        | Some i =>
            ∃ p, compartment w' !! p = Some (ObjIntrinsic exportName i)
               ∧ resolve moduleName exportName type resolved w'
                 = verdict moduleName exportName type p
                     (ObjIntrinsic exportName i) w'
        | None =>
            resolve moduleName exportName type resolved w'
            = missing moduleName exportName type w'
        end.
Proof.
  destruct (defs (memories (module w))) as [|d ds] eqn:Hd; [done | intros _].
  rewrite (setUp_standard _ _ _ Hd).
  erewrite setUpStandardToolchain_Ok by done.
  eexists. split; [reflexivity |].
  intros moduleName exportName type resolved.
  match goal with
  | |- context [resolve _ _ _ _ ?v] =>
      pose proof (resolve_in_instance v (compartment w) getIntrinsicModule_env
                    "env" ∅ [] (length (compartment w))
                    moduleName exportName type resolved) as H
  end.
  rewrite lookup_empty in H. apply H; [done | done |].
  simpl. by rewrite app_nil_r.
Qed.

(** X14: after [setUp] on a legacy module, [resolve] under ["asm2wasm"],
    ["global"] and ["global.Math"] is decided by the provider's [asm2wasm]
    and [global] collections, and under ["env"] by the legacy [env]
    collection, except that [env.memory] and [env.table] are the memory and
    the table that [setUp] created, whatever the collection holds under
    these names. *)
Theorem resolve_after_legacy_setUp (w : World) :
  defs (memories (module w)) = [] →
  imports (memories (module w)) ≠ [] →
  imports (tables (module w)) ≠ [] →
  ∃ w' memory table,
    setUp w = Ok () w'
    ∧ compartment w' !! length (compartment w) = Some (ObjMemory memory)
    ∧ compartment w' !! S (length (compartment w)) = Some (ObjTable table)
    ∧ (∀ type resolved,
         resolve "env" "memory" type resolved w'
         = verdict "env" "memory" type (length (compartment w))
             (ObjMemory memory) w'
         ∧ resolve "env" "table" type resolved w'
           = verdict "env" "table" type (S (length (compartment w)))
               (ObjTable table) w')
    ∧ ∀ moduleName exportName type resolved intrinsics,
        (moduleName = "env" ∧ intrinsics = getIntrinsicModule_emEnv
         ∧ exportName ≠ "memory" ∧ exportName ≠ "table")
        ∨ (moduleName = "asm2wasm" ∧ intrinsics = getIntrinsicModule_emAsm2wasm)
        ∨ ((moduleName = "global" ∨ moduleName = "global.Math")
           ∧ intrinsics = getIntrinsicModule_emGlobal) →
        match intrinsics !! exportName with
        | Some i =>
            ∃ p, compartment w' !! p = Some (ObjIntrinsic exportName i)
               ∧ resolve moduleName exportName type resolved w'
                 = verdict moduleName exportName type p
                     (ObjIntrinsic exportName i) w'
        | None =>
            resolve moduleName exportName type resolved w'
            = missing moduleName exportName type w'
        end.
Proof.
  intros Hd Hm Ht.
  destruct (imports (memories (module w))) as [|mi mis] eqn:Em; [done |].
  destruct (imports (tables (module w))) as [|ti tis] eqn:Et; [done |].
  rewrite (setUp_legacy _ Hd). erewrite setUpEmscripten_Ok by done.
  set (w0 := with_resolver (set_isEmscripten true) w).
  pose proof (legacy_memory_object w0 mi mis ti tis) as Hmem.
  pose proof (legacy_table_object w0 mi mis ti tis) as Htab.
  change (compartment w0) with (compartment w) in Hmem, Htab.
  set (h := compartment w) in *.
  set (M := ObjMemory (legacyMemory (import_type mi))) in *.
  set (T := ObjTable (legacyTable (import_type ti))) in *.
  set (extra := (<["table" := S (length h)]> (<["memory" := length h]> ∅)
                 : gmap string ptr)).
  set (I1 := instanceObjects getIntrinsicModule_emEnv "env" extra (S (S (length h)))).
  set (I2 := instanceObjects getIntrinsicModule_emAsm2wasm "emAsm2wasm" ∅
               (S (S (length h)) + length I1)).
  set (I3 := instanceObjects getIntrinsicModule_emGlobal "emGlobal" ∅
               (S (S (length h)) + length I1 + length I2)).
  assert (Hheap : compartment (afterSetUpEmscripten w0 mi mis ti tis)
                  = h ++ M :: T :: I1 ++ I2 ++ I3) by reflexivity.
  assert (Hres : resolver (afterSetUpEmscripten w0 mi mis ti tis)
                 = set_emGlobalModule (Some (S (S (length h)) + length I1 + length I2))
                     (set_emAsm2wasmModule (Some (S (S (length h)) + length I1))
                        (set_emEnvModule (Some (S (S (length h))))
                           (set_isEmscripten true (resolver w))))) by reflexivity.
  set (w' := afterSetUpEmscripten w0 mi mis ti tis) in *. clearbody w'.
  assert (Henv : ∀ exportName type resolved,
    match extra !! exportName, getIntrinsicModule_emEnv !! exportName with
    | Some q, _ =>
        resolve "env" exportName type resolved w'
        = typeTestOutcome "env" exportName type (Some q) w'
    | None, Some i =>
        ∃ p, compartment w' !! p = Some (ObjIntrinsic exportName i)
           ∧ resolve "env" exportName type resolved w'
             = verdict "env" exportName type p (ObjIntrinsic exportName i) w'
    | None, None =>
        resolve "env" exportName type resolved w' = missing "env" exportName type w'
    end).
  { intros exportName type resolved.
    apply (resolve_in_instance w' (h ++ [M; T]) getIntrinsicModule_emEnv "env"
             extra (I2 ++ I3) (S (S (length h))) "env" exportName type resolved).
    - unfold lookedUp. by rewrite Hres.
    - rewrite length_app. simpl. lia.
    - rewrite Hheap, <- app_assoc. reflexivity. }
  exists w', (legacyMemory (import_type mi)), (legacyTable (import_type ti)).
  split; [reflexivity |]. split; [exact Hmem |]. split; [exact Htab |]. split.
  - intros type resolved. split.
    + pose proof (Henv "memory" type resolved) as H.
      replace (extra !! "memory") with (Some (length h)) in H
        by (symmetry; unfold extra; by simplify_map_eq).
      rewrite H. by apply typeTestOutcome_found.
    + pose proof (Henv "table" type resolved) as H.
      replace (extra !! "table") with (Some (S (length h))) in H
        by (symmetry; unfold extra; by simplify_map_eq).
      rewrite H. by apply typeTestOutcome_found.
  - intros moduleName exportName type resolved intrinsics
      [(-> & -> & Hnm & Hnt)|[(-> & ->)|(Hg & ->)]].
    + pose proof (Henv exportName type resolved) as H.
      replace (extra !! exportName) with (@None nat) in H
        by (symmetry; unfold extra; by simplify_map_eq).
      exact H.
    + pose proof (resolve_in_instance w' (h ++ M :: T :: I1)
                    getIntrinsicModule_emAsm2wasm "emAsm2wasm" ∅ I3
                    (S (S (length h)) + length I1)
                    "asm2wasm" exportName type resolved) as H.
      rewrite lookup_empty in H. apply H.
      * unfold lookedUp. by rewrite Hres.
      * rewrite length_app. cbn [length]. lia.
      * rewrite Hheap, <- app_assoc. reflexivity.
    + pose proof (resolve_in_instance w' (h ++ M :: T :: I1 ++ I2)
                    getIntrinsicModule_emGlobal "emGlobal" ∅ []
                    (S (S (length h)) + length I1 + length I2)
                    moduleName exportName type resolved) as H.
      rewrite lookup_empty in H. apply H.
      * unfold lookedUp. rewrite Hres. simpl.
        destruct Hg as [-> | ->]; repeat case_decide; try done; exfalso; tauto.
      * rewrite length_app. cbn [length]. rewrite length_app. lia.
      * rewrite Hheap, app_nil_r, <- app_assoc. cbn [app].
        by rewrite <- app_assoc.
Qed.

(** ** The bytes [setUp] leaves alone *)

Lemma storeBytes_lookup_outside n addr v bytes a :
  (a < addr ∨ addr + Z.of_nat n ≤ a)%Z →
  storeBytes n addr v bytes !! a = bytes !! a.
Proof.
  revert addr v bytes. induction n as [|n IH]; intros addr v bytes Ha; [done |].
  simpl. rewrite IH by lia. apply lookup_insert_ne. lia.
Qed.

(** X15: of the memory it creates, the legacy path assigns the sixteen
    bytes of [DYNAMICTOP_PTR], [_stderr], [_stdin] and [_stdout] and no
    other: every other byte is as [createMemory] left it, so that
    [tempDoublePtr] and the padding of the block read as zero. *)
Theorem setUp_legacy_other_bytes (w : World) :
  defs (memories (module w)) = [] →
  imports (memories (module w)) ≠ [] →
  imports (tables (module w)) ≠ [] →
  ∃ w' memory,
    setUp w = Ok () w'
    ∧ compartment w' !! length (compartment w) = Some (ObjMemory memory)
    ∧ (∀ a, ¬ assignedGlobalsByte a → memoryBytes memory !! a = None)
    ∧ load (length (compartment w)) 8
        (MutableGlobals.address + MutableGlobals.offset_tempDoublePtr) w'
      = Some 0%Z.
Proof.
  intros Hd Hm Ht.
  destruct (imports (memories (module w))) as [|mi mis] eqn:Em; [done |].
  destruct (imports (tables (module w))) as [|ti tis] eqn:Et; [done |].
  rewrite (setUp_legacy _ Hd). erewrite setUpEmscripten_Ok by done.
  pose proof (legacy_memory_object (with_resolver (set_isEmscripten true) w)
                mi mis ti tis) as Hmem.
  simpl (length _) in Hmem.
  eexists _, _. split; [reflexivity |]. split; [exact Hmem |]. split.
  - intros a Ha. simpl. unfold patchGlobals.
    unfold assignedGlobalsByte, MutableGlobals.address,
      MutableGlobals.offset_DYNAMICTOP_PTR, MutableGlobals.offset__stderr,
      MutableGlobals.offset__stdin, MutableGlobals.offset__stdout,
      numBytesPerPage in *.
    rewrite !storeBytes_lookup_outside by lia. apply lookup_empty.
  - unfold load. rewrite Hmem. by vm_compute.
Qed.

End Resolver.

Arguments Ok {Intrinsic A} _ _.
Arguments Crash {Intrinsic A} _ _.

(** * A small provider and three modules

    A provider with one host function in the standard collection, one in
    each of the legacy [env] and [asm2wasm] collections and one data global
    in the legacy [global] collection; declared types are kinds.  On it the
    operations run by computation. *)

Inductive HostDef := HostFunction | HostGlobal.

Inductive Kind := KFunction | KTable | KMemory | KGlobal | KInstance.

Definition kindOf (o : @RuntimeObject HostDef) : Kind :=
  match o with
  | ObjMemory _ => KMemory
  | ObjTable _ => KTable
  | ObjInstance _ => KInstance
  | ObjIntrinsic _ HostFunction => KFunction
  | ObjIntrinsic _ HostGlobal => KGlobal
  end.

Definition kindEqb (a b : Kind) : bool :=
  match a, b with
  | KFunction, KFunction | KTable, KTable | KMemory, KMemory
  | KGlobal, KGlobal | KInstance, KInstance => true
  | _, _ => false
  end.

Definition hasKind (o : @RuntimeObject HostDef) (k : Kind) : bool :=
  kindEqb (kindOf o) k.

Definition kindName (k : Kind) : string :=
  match k with
  | KFunction => "func"
  | KTable => "table"
  | KMemory => "memory"
  | KGlobal => "global"
  | KInstance => "instance"
  end.

Definition envIntrinsics : gmap string HostDef := {[ "memcpy" := HostFunction ]}.
Definition emEnvIntrinsics : gmap string HostDef := {[ "abort" := HostFunction ]}.
Definition emAsm2wasmIntrinsics : gmap string HostDef :=
  {[ "f64-to-int" := HostFunction ]}.
Definition emGlobalIntrinsics : gmap string HostDef := {[ "NaN" := HostGlobal ]}.

Abbreviation setUp' :=
  (setUp envIntrinsics emEnvIntrinsics emAsm2wasmIntrinsics emGlobalIntrinsics).
Abbreviation resolve' := (resolve hasKind kindOf kindName).
Abbreviation run' :=
  (run hasKind kindOf kindName
     envIntrinsics emEnvIntrinsics emAsm2wasmIntrinsics emGlobalIntrinsics).

(** A resolver fresh from its constructor, an empty compartment and an
    empty log. *)
Definition freshWorld (m : IRModule) : @World HostDef :=
  {| resolver := RootResolver_new; module := m; compartment := []; logger := [] |}.

(** One declared memory of 1 to 2 pages. *)
Definition standardModule : IRModule :=
  {| memories :=
       {| imports := [];
          defs := [ {| memdef_type :=
                         {| memory_isShared := false;
                            memory_size := {| size_min := 1; size_max := 2 |} |} |} ] |};
     tables := {| imports := []; defs := [] |} |}.

(** No declared memory; memory and table imported from [env]. *)
Definition legacyModule : IRModule :=
  {| memories :=
       {| imports := [ {| import_type :=
                            {| memory_isShared := false;
                               memory_size := {| size_min := 256; size_max := 256 |} |};
                          import_moduleName := "env";
                          import_exportName := "memory" |} ];
          defs := [] |};
     tables :=
       {| imports := [ {| import_type :=
                            {| table_elementType := funcref;
                               table_isShared := false;
                               table_size := {| size_min := 10; size_max := 10 |} |};
                          import_moduleName := "env";
                          import_exportName := "table" |} ];
          defs := [] |} |}.

(** A module without any memory or table, declared or imported. *)
Definition bareModule : IRModule :=
  {| memories := {| imports := []; defs := [] |};
     tables := {| imports := []; defs := [] |} |}.

(** No declared memory; a memory imported from [env], but no table. *)
Definition memoryOnlyModule : IRModule :=
  {| memories :=
       {| imports := [ {| import_type :=
                            {| memory_isShared := false;
                               memory_size := {| size_min := 256; size_max := 256 |} |};
                          import_moduleName := "env";
                          import_exportName := "memory" |} ];
          defs := [] |};
     tables := {| imports := []; defs := [] |} |}.

Definition standardWorld : @World HostDef := final (setUp' (freshWorld standardModule)).
Definition legacyWorld : @World HostDef := final (setUp' (freshWorld legacyModule)).

(** The [env] instance of [standardWorld] and the [global] instance of
    [legacyWorld]. *)
Definition standardEnv : ModuleInstance :=
  {| instanceDebugName := "env"; exportMap := {[ "memcpy" := 1 ]} |}.

Definition legacyAsm2wasm : ModuleInstance :=
  {| instanceDebugName := "emAsm2wasm"; exportMap := {[ "f64-to-int" := 5 ]} |}.

Definition legacyGlobal : ModuleInstance :=
  {| instanceDebugName := "emGlobal"; exportMap := {[ "NaN" := 7 ]} |}.

(** ** The scenarios of the design, by computation *)

(** A: a standard module importing [env.memcpy] as a function. *)
Example scenario_A :
  resolve' "env" "memcpy" KFunction None standardWorld
  = Ok (true, Some 1) standardWorld.
Proof. reflexivity. Qed.

(** B: a legacy module importing [asm2wasm.f64-rem], which is not there. *)
Example scenario_B :
  resolve' "asm2wasm" "f64-rem" KFunction None legacyWorld
  = Ok (false, None)
       (logged "Missing import {}.{} {}" ["asm2wasm"; "f64-rem"; "func"] legacyWorld).
Proof. reflexivity. Qed.

(** C: a legacy module importing the data global [global.NaN] as a
    function. *)
Example scenario_C :
  resolve' "global" "NaN" KFunction None legacyWorld
  = Ok (false, Some 7)
       (logged "Resolved import {}.{} to a {}, but was expecting {}"
          ["global"; "NaN"; "global"; "func"] legacyWorld).
Proof. reflexivity. Qed.

(** On the legacy path an unrecognised module name is logged and the
    caller's [resolved] goes to the type test as it came in: empty, the call
    fails; pointing at a memory where a memory is expected, it succeeds. *)
Example legacy_path_unrecognised_module_name :
  resolve' "wasi" "memory" KMemory None legacyWorld
  = Ok (false, None)
       (logged "Missing import {}.{} {}" ["wasi"; "memory"; "memory"]
          (logged "Unrecognised module: {}" ["wasi"] legacyWorld))
  ∧ resolve' "wasi" "memory" KMemory (Some 0) legacyWorld
    = Ok (true, Some 0) (logged "Unrecognised module: {}" ["wasi"] legacyWorld).
Proof. split; reflexivity. Qed.

(** A type-mismatch record carries the names as C strings: a module name
    with an embedded NUL is logged up to the NUL. *)
Example mismatch_record_cuts_at_NUL :
  resolve' (String.append "s" (String Ascii.zero "ys")) "memcpy" KGlobal None standardWorld
  = Ok (false, Some 1)
       (logged "Resolved import {}.{} to a {}, but was expecting {}"
          ["s"; "memcpy"; "func"; "global"] standardWorld).
Proof. reflexivity. Qed.

(** On the standard path a module name other than ["env"] resolves all the
    same, without a word in the log. *)
Example standard_path_other_module_name :
  resolve' "sys" "memcpy" KFunction None standardWorld
  = Ok (true, Some 1) standardWorld
  ∧ logger standardWorld = [].
Proof. split; reflexivity. Qed.

(** ** The properties at these modules *)

Lemma setUp_classifies_witness :
  (isEmscripten (resolver (final (setUp' (freshWorld standardModule)))) = false
   ↔ defs (memories standardModule) ≠ [])
  ∧ (isEmscripten (resolver (final (setUp' (freshWorld legacyModule)))) = true
     ↔ defs (memories legacyModule) = []).
Proof.
  split.
  - apply (setUp_classifies envIntrinsics emEnvIntrinsics emAsm2wasmIntrinsics
             emGlobalIntrinsics (freshWorld standardModule)).
  - apply (setUp_classifies envIntrinsics emEnvIntrinsics emAsm2wasmIntrinsics
             emGlobalIntrinsics (freshWorld legacyModule)).
Defined.

Lemma setUp_standard_limits_witness :
  defs (memories (module (freshWorld standardModule))) ≠ []
  ∧ ∃ w' d,
      setUp' (freshWorld standardModule) = Ok () w'
      ∧ isEmscripten (resolver w') = false
      ∧ defs (memories (module w')) !! 0 = Some d
      ∧ size_min (memory_size (memdef_type d)) = (15 * 16)%Z
      ∧ size_max (memory_size (memdef_type d)) = (1024 * 16)%Z.
Proof.
  split; [discriminate |].
  apply (setUp_standard_limits envIntrinsics emEnvIntrinsics
           emAsm2wasmIntrinsics emGlobalIntrinsics (freshWorld standardModule)).
  discriminate.
Defined.

Lemma setUp_legacy_limits_witness :
  defs (memories (module (freshWorld legacyModule))) = []
  ∧ imports (memories (module (freshWorld legacyModule))) ≠ []
  ∧ imports (tables (module (freshWorld legacyModule))) ≠ []
  ∧ ∃ w' mi ti memory table,
      setUp' (freshWorld legacyModule) = Ok () w'
      ∧ isEmscripten (resolver w') = true
      ∧ imports (memories (module w')) !! 0 = Some mi
      ∧ size_min (memory_size (import_type mi)) = (1024 * 16)%Z
      ∧ size_max (memory_size (import_type mi)) = (2048 * 1024 * 16)%Z
      ∧ imports (tables (module w')) !! 0 = Some ti
      ∧ size_min (table_size (import_type ti)) = 40000000%Z
      ∧ size_max (table_size (import_type ti)) = 60000000%Z
      ∧ compartment w' !! 0 = Some (ObjMemory memory)
      ∧ memoryType memory = import_type mi
      ∧ compartment w' !! 1 = Some (ObjTable table)
      ∧ tableType table = import_type ti.
Proof.
  split; [reflexivity |]. split; [discriminate |]. split; [discriminate |].
  apply (setUp_legacy_limits envIntrinsics emEnvIntrinsics
           emAsm2wasmIntrinsics emGlobalIntrinsics (freshWorld legacyModule)).
  - reflexivity.
  - discriminate.
  - discriminate.
Defined.

Lemma setUp_legacy_globals_witness :
  defs (memories (module (freshWorld legacyModule))) = []
  ∧ imports (memories (module (freshWorld legacyModule))) ≠ []
  ∧ imports (tables (module (freshWorld legacyModule))) ≠ []
  ∧ ∃ w' memory,
      setUp' (freshWorld legacyModule) = Ok () w'
      ∧ compartment w' !! 0 = Some (ObjMemory memory)
      ∧ MutableGlobals.address = (63 * 65536)%Z
      ∧ load 0 4 (MutableGlobals.address + MutableGlobals.offset_DYNAMICTOP_PTR) w'
        = Some EMSCRIPTEN_STACK_MAX
      ∧ EMSCRIPTEN_STACK_MAX = (256 * 65536)%Z
      ∧ load 0 4 (MutableGlobals.address + MutableGlobals.offset__stderr) w'
        = Some 1%Z
      ∧ load 0 4 (MutableGlobals.address + MutableGlobals.offset__stdin) w'
        = Some 2%Z
      ∧ load 0 4 (MutableGlobals.address + MutableGlobals.offset__stdout) w'
        = Some 3%Z
      ∧ memoryNumPages memory = size_min (memory_size (memoryType memory))
      ∧ (MutableGlobals.address + MutableGlobals.sizeof
         < size_min (memory_size (memoryType memory)) * numBytesPerPage)%Z.
Proof.
  split; [reflexivity |]. split; [discriminate |]. split; [discriminate |].
  apply (setUp_legacy_globals envIntrinsics emEnvIntrinsics
           emAsm2wasmIntrinsics emGlobalIntrinsics (freshWorld legacyModule)).
  - reflexivity.
  - discriminate.
  - discriminate.
Defined.

Lemma resolve_type_checked_witness :
  (allowedModuleName (isEmscripten (resolver standardWorld)) "env"
   ∧ collectionFor (resolver standardWorld) "env" = Some 0
   ∧ compartment standardWorld !! 0 = Some (ObjInstance standardEnv)
   ∧ (∀ p, exportMap standardEnv !! "memcpy" = Some p →
           is_Some (compartment standardWorld !! p))
   ∧ resolve' "env" "memcpy" KFunction None standardWorld
     = Ok (true, Some 1) standardWorld)
  ∧ (allowedModuleName (isEmscripten (resolver legacyWorld)) "global"
     ∧ collectionFor (resolver legacyWorld) "global" = Some 6
     ∧ compartment legacyWorld !! 6 = Some (ObjInstance legacyGlobal)
     ∧ (∀ p, exportMap legacyGlobal !! "NaN" = Some p →
             is_Some (compartment legacyWorld !! p))
     ∧ resolve' "global" "NaN" KFunction None legacyWorld
       = Ok (false, Some 7)
            (logged "Resolved import {}.{} to a {}, but was expecting {}"
               ["global"; "NaN"; "global"; "func"] legacyWorld))
  ∧ (allowedModuleName (isEmscripten (resolver legacyWorld)) "asm2wasm"
     ∧ collectionFor (resolver legacyWorld) "asm2wasm" = Some 4
     ∧ compartment legacyWorld !! 4 = Some (ObjInstance legacyAsm2wasm)
     ∧ (∀ p, exportMap legacyAsm2wasm !! "f64-rem" = Some p →
             is_Some (compartment legacyWorld !! p))
     ∧ resolve' "asm2wasm" "f64-rem" KFunction None legacyWorld
       = Ok (false, None)
            (logged "Missing import {}.{} {}"
               ["asm2wasm"; "f64-rem"; "func"] legacyWorld)).
Proof.
  assert (Hstd : ∀ p, exportMap standardEnv !! "memcpy" = Some p →
                      is_Some (compartment standardWorld !! p)).
  { intros p H. vm_compute in H. injection H as <-. vm_compute. eexists. reflexivity. }
  assert (Hglobal : ∀ p, exportMap legacyGlobal !! "NaN" = Some p →
                         is_Some (compartment legacyWorld !! p)).
  { intros p H. vm_compute in H. injection H as <-. vm_compute. eexists. reflexivity. }
  assert (Hasm : ∀ p, exportMap legacyAsm2wasm !! "f64-rem" = Some p →
                      is_Some (compartment legacyWorld !! p)).
  { intros p H. vm_compute in H. discriminate H. }
  assert (Hlegacy : ∀ name, name ∈ ["env"; "asm2wasm"; "global"; "global.Math"] →
            allowedModuleName (isEmscripten (resolver legacyWorld)) name).
  { intros name H. exact H. }
  assert (Hin1 : "global" ∈ ["env"; "asm2wasm"; "global"; "global.Math"]).
  { apply list_elem_of_In. simpl. tauto. }
  assert (Hin2 : "asm2wasm" ∈ ["env"; "asm2wasm"; "global"; "global.Math"]).
  { apply list_elem_of_In. simpl. tauto. }
  split; [| split].
  - split; [reflexivity |]. split; [reflexivity |]. split; [reflexivity |].
    split; [exact Hstd |].
    destruct (resolve_type_checked hasKind kindOf kindName standardWorld
                "env" "memcpy" KFunction None 0 standardEnv
                eq_refl eq_refl eq_refl Hstd) as (_ & _ & Hfound & _).
    apply (Hfound 1 (ObjIntrinsic "memcpy" HostFunction)); reflexivity.
  - split; [exact (Hlegacy _ Hin1) |].
    split; [reflexivity |]. split; [reflexivity |]. split; [exact Hglobal |].
    destruct (resolve_type_checked hasKind kindOf kindName legacyWorld
                "global" "NaN" KFunction None 6 legacyGlobal
                (Hlegacy _ Hin1) eq_refl eq_refl Hglobal)
      as (_ & _ & _ & Hmismatch & _).
    apply (Hmismatch 7 (ObjIntrinsic "NaN" HostGlobal)); reflexivity.
  - split; [exact (Hlegacy _ Hin2) |].
    split; [reflexivity |]. split; [reflexivity |]. split; [exact Hasm |].
    destruct (resolve_type_checked hasKind kindOf kindName legacyWorld
                "asm2wasm" "f64-rem" KFunction None 4 legacyAsm2wasm
                (Hlegacy _ Hin2) eq_refl eq_refl Hasm)
      as (_ & _ & _ & _ & Hmissing).
    apply Hmissing. reflexivity.
Defined.

Lemma isEmscripten_read_only_witness :
  Forall (λ c, isSetUp c = false)
    [CallResolve "env" "memcpy" KFunction None; CallSetUser "alice";
     CallCleanUp; CallResolve "env" "memcpy" KFunction None]
  ∧ isEmscripten
      (resolver
         (final
            (run' [CallResolve "env" "memcpy" KFunction None; CallSetUser "alice";
                   CallCleanUp; CallResolve "env" "memcpy" KFunction None]
               (final (setUp' (freshWorld legacyModule)))).2))
    = bool_decide (defs (memories (module (freshWorld legacyModule))) = []).
Proof.
  assert (H : Forall (λ c : @Call Kind, isSetUp c = false)
                [CallResolve "env" "memcpy" KFunction None; CallSetUser "alice";
                 CallCleanUp; CallResolve "env" "memcpy" KFunction None]).
  { repeat constructor. }
  split; [exact H |].
  apply (isEmscripten_read_only hasKind kindOf kindName envIntrinsics
           emEnvIntrinsics emAsm2wasmIntrinsics emGlobalIntrinsics), H.
Defined.

Lemma user_has_no_effect_witness :
  withoutSetUser
    [CallSetUser "alice"; CallSetUp; CallResolve "env" "memcpy" KFunction None]
  = withoutSetUser
      [CallSetUp; CallSetUser "bob"; CallResolve "env" "memcpy" KFunction None;
       CallSetUser "carol"]
  ∧ forgetUser (freshWorld standardModule)
    = forgetUser (with_resolver (set_user "mallory") (freshWorld standardModule))
  ∧ (run' [CallSetUser "alice"; CallSetUp;
           CallResolve "env" "memcpy" KFunction None]
       (freshWorld standardModule)).1
    = (run' [CallSetUp; CallSetUser "bob";
             CallResolve "env" "memcpy" KFunction None; CallSetUser "carol"]
         (with_resolver (set_user "mallory") (freshWorld standardModule))).1
  ∧ outcome_map forgetUser
      (run' [CallSetUser "alice"; CallSetUp;
             CallResolve "env" "memcpy" KFunction None]
         (freshWorld standardModule)).2
    = outcome_map forgetUser
        (run' [CallSetUp; CallSetUser "bob";
               CallResolve "env" "memcpy" KFunction None; CallSetUser "carol"]
           (with_resolver (set_user "mallory") (freshWorld standardModule))).2.
Proof.
  split; [reflexivity |]. split; [reflexivity |].
  apply (user_has_no_effect hasKind kindOf kindName envIntrinsics
           emEnvIntrinsics emAsm2wasmIntrinsics emGlobalIntrinsics);
    reflexivity.
Defined.

Lemma resolve_module_name_witness :
  (isEmscripten (resolver standardWorld) = false
   ∧ envModule (resolver standardWorld) = Some 0
   ∧ compartment standardWorld !! 0 = Some (ObjInstance standardEnv)
   ∧ value (resolve' "sys" "memcpy" KFunction None standardWorld)
     = value (resolve' "env" "memcpy" KFunction None standardWorld)
   ∧ resolve' "sys" "memcpy" KFunction None standardWorld
     = Ok (true, Some 1) standardWorld)
  ∧ (isEmscripten (resolver legacyWorld) = true
     ∧ ¬ allowedModuleName true "wasi"
     ∧ (∃ l, logger (final (resolve' "wasi" "memory" KMemory (Some 0) legacyWorld))
             = logger legacyWorld
               ++ error "Unrecognised module: {}" ["wasi"] :: l)
     ∧ (∀ b r w',
          resolve' "wasi" "memory" KMemory (Some 0) legacyWorld = Ok (b, r) w' →
          r = Some 0)
     ∧ resolve' "wasi" "abort" KFunction None legacyWorld
       = Ok (false, None)
            (logged "Missing import {}.{} {}" ["wasi"; "abort"; "func"]
               (logged "Unrecognised module: {}" ["wasi"] legacyWorld))).
Proof.
  assert (Hwasi : ¬ allowedModuleName true "wasi").
  { intros H. apply list_elem_of_In in H. simpl in H.
    repeat (destruct H as [H|H]; [discriminate H |]). exact H. }
  destruct (resolve_module_name hasKind kindOf kindName) as [Hstandard Hlegacy].
  split.
  - destruct (Hstandard "sys" "memcpy" KFunction None standardWorld eq_refl)
      as (Hvalue & _ & Hlive).
    split; [reflexivity |]. split; [reflexivity |]. split; [reflexivity |].
    split; [exact Hvalue |].
    etrans; [exact (Hlive 0 standardEnv eq_refl eq_refl) | reflexivity].
  - destruct (Hlegacy "wasi" "memory" KMemory (Some 0) legacyWorld eq_refl Hwasi)
      as (Hlogged & Hsame & _ & _).
    destruct (Hlegacy "wasi" "abort" KFunction None legacyWorld eq_refl Hwasi)
      as (_ & _ & _ & Hempty).
    split; [reflexivity |]. split; [exact Hwasi |]. split; [exact Hlogged |].
    split; [exact Hsame |]. exact (Hempty eq_refl).
Defined.

(** C1, as stated, fails on the standard path: with the standard collection
    exporting [memcpy], a [resolve] of [sys.memcpy] does not fail, it
    returns [true] with the host function. *)
Lemma resolve_unrecognised_standard_counterexample :
  ¬ (∀ (w : @World HostDef) moduleName exportName type resolved,
       isEmscripten (resolver w) = false →
       moduleName ≠ "env" →
       ∃ r w', resolve' moduleName exportName type resolved w = Ok (false, r) w'
               ∧ error "Unrecognised module: {}" [moduleName] ∈ logger w').
Proof.
  intros H.
  destruct (H standardWorld "sys" "memcpy" KFunction None eq_refl)
    as (r & w' & Hres & _); [discriminate |].
  vm_compute in Hres. discriminate Hres.
Qed.

(** C2 at a module with no memory and no table at all: [setUp] classifies
    it as legacy, sets the flag and runs into the unchecked access to the
    first imported memory; nothing has been logged. *)
Theorem setUp_bare_module_faults :
  defs (memories bareModule) = []
  ∧ imports (memories bareModule) = []
  ∧ setUp' (freshWorld bareModule)
    = Crash VectorOutOfRange
        (with_resolver (set_isEmscripten true) (freshWorld bareModule))
  ∧ logger (final (setUp' (freshWorld bareModule))) = [].
Proof. repeat split. Qed.

(** ** The further properties at these modules *)

Abbreviation verdict' := (verdict hasKind kindOf kindName).
Abbreviation missing' := (@missing HostDef Kind kindName).

Lemma setUp_completes_iff_witness :
  completed (setUp' (freshWorld bareModule)) = false
  ∧ ∃ w', setUp' (freshWorld bareModule) = Crash VectorOutOfRange w'.
Proof.
  split; [reflexivity |].
  apply (setUp_completes_iff envIntrinsics emEnvIntrinsics emAsm2wasmIntrinsics
           emGlobalIntrinsics (freshWorld bareModule)).
  reflexivity.
Defined.

Lemma setUp_without_table_import_witness :
  defs (memories (module (freshWorld memoryOnlyModule))) = []
  ∧ imports (memories (module (freshWorld memoryOnlyModule))) ≠ []
  ∧ imports (tables (module (freshWorld memoryOnlyModule))) = []
  ∧ ∃ w' mi,
      setUp' (freshWorld memoryOnlyModule) = Crash VectorOutOfRange w'
      ∧ isEmscripten (resolver w') = true
      ∧ imports (memories (module w')) !! 0 = Some mi
      ∧ size_min (memory_size (import_type mi)) = (1024 * 16)%Z
      ∧ size_max (memory_size (import_type mi)) = (2048 * 1024 * 16)%Z
      ∧ compartment w' = compartment (freshWorld memoryOnlyModule)
      ∧ emEnvModule (resolver w')
        = emEnvModule (resolver (freshWorld memoryOnlyModule))
      ∧ emAsm2wasmModule (resolver w')
        = emAsm2wasmModule (resolver (freshWorld memoryOnlyModule))
      ∧ emGlobalModule (resolver w')
        = emGlobalModule (resolver (freshWorld memoryOnlyModule))
      ∧ logger w' = logger (freshWorld memoryOnlyModule).
Proof.
  split; [reflexivity |]. split; [discriminate |]. split; [reflexivity |].
  apply (setUp_without_table_import envIntrinsics emEnvIntrinsics
           emAsm2wasmIntrinsics emGlobalIntrinsics (freshWorld memoryOnlyModule)).
  - reflexivity.
  - discriminate.
  - reflexivity.
Defined.

Lemma setUp_again_witness :
  completed (setUp' (freshWorld legacyModule)) = true
  ∧ ∃ w1 w2,
      setUp' (freshWorld legacyModule) = Ok () w1
      ∧ setUp' w1 = Ok () w2
      ∧ module w2 = module w1
      ∧ isEmscripten (resolver w2) = isEmscripten (resolver w1)
      ∧ compartment w1 `prefix_of` compartment w2
      ∧ length (compartment w1) < length (compartment w2).
Proof.
  split; [reflexivity |].
  apply (setUp_again envIntrinsics emEnvIntrinsics emAsm2wasmIntrinsics
           emGlobalIntrinsics (freshWorld legacyModule)).
  reflexivity.
Defined.

Lemma resolve_true_sound_witness :
  resolve' "env" "memcpy" KFunction None standardWorld
  = Ok (true, Some 1) standardWorld
  ∧ (∃ p o, Some 1 = Some p
            ∧ compartment standardWorld !! p = Some o
            ∧ hasKind o KFunction = true)
  ∧ resolver standardWorld = resolver standardWorld
  ∧ module standardWorld = module standardWorld
  ∧ compartment standardWorld = compartment standardWorld.
Proof.
  split; [reflexivity |].
  apply (resolve_true_sound hasKind kindOf kindName "env" "memcpy" KFunction
           None (Some 1) standardWorld standardWorld).
  reflexivity.
Defined.

Lemma resolve_false_reported_witness :
  resolve' "global" "NaN" KFunction None legacyWorld
  = Ok (false, Some 7)
       (logged "Resolved import {}.{} to a {}, but was expecting {}"
          ["global"; "NaN"; "global"; "func"] legacyWorld)
  ∧ ∃ l,
      (l = [] ∨ l = [error "Unrecognised module: {}" ["global"]])
      ∧ ((Some 7 = None
          ∧ logger (logged "Resolved import {}.{} to a {}, but was expecting {}"
                      ["global"; "NaN"; "global"; "func"] legacyWorld)
            = logger legacyWorld ++ l
              ++ [error "Missing import {}.{} {}"
                    ["global"; "NaN"; c_str (kindName KFunction)]])
         ∨ ∃ p o, Some 7 = Some p
                ∧ compartment legacyWorld !! p = Some o
                ∧ hasKind o KFunction = false
                ∧ logger (logged "Resolved import {}.{} to a {}, but was expecting {}"
                            ["global"; "NaN"; "global"; "func"] legacyWorld)
                  = logger legacyWorld ++ l
                    ++ [error "Resolved import {}.{} to a {}, but was expecting {}"
                          [c_str "global"; c_str "NaN";
                           c_str (kindName (kindOf o));
                           c_str (kindName KFunction)]]).
Proof.
  split; [reflexivity |].
  apply (resolve_false_reported hasKind kindOf kindName "global" "NaN"
           KFunction None (Some 7) legacyWorld).
  reflexivity.
Defined.

Lemma resolve_without_instances_witness :
  (isEmscripten (resolver standardWorld) = false
   ∨ allowedModuleName true "env")
  ∧ resolve' "env" "memcpy" KFunction None (final (cleanUp standardWorld))
    = Crash NullPointer (final (cleanUp standardWorld)).
Proof.
  split; [by left |].
  apply (resolve_without_instances hasKind kindOf kindName "env" "memcpy"
           KFunction None).
  by left.
Defined.

Lemma resolve_overwrites_resolved_witness :
  (isEmscripten (resolver standardWorld) = false
   ∨ allowedModuleName true "sys")
  ∧ resolve' "sys" "memcpy" KFunction (Some 0) standardWorld
    = resolve' "sys" "memcpy" KFunction None standardWorld.
Proof.
  split; [by left |].
  apply (resolve_overwrites_resolved hasKind kindOf kindName).
  by left.
Defined.

Lemma resolve_after_standard_setUp_witness :
  defs (memories (module (freshWorld standardModule))) ≠ []
  ∧ ∃ w', setUp' (freshWorld standardModule) = Ok () w'
      ∧ ∀ moduleName exportName type resolved,
          match envIntrinsics !! exportName with
          | Some i =>
              ∃ p, compartment w' !! p = Some (ObjIntrinsic exportName i)
                 ∧ resolve' moduleName exportName type resolved w'
                   = verdict' moduleName exportName type p
                       (ObjIntrinsic exportName i) w'
          | None =>
              resolve' moduleName exportName type resolved w'
              = missing' moduleName exportName type w'
          end.
Proof.
  split; [discriminate |].
  apply (resolve_after_standard_setUp hasKind kindOf kindName envIntrinsics
           emEnvIntrinsics emAsm2wasmIntrinsics emGlobalIntrinsics
           (freshWorld standardModule)).
  discriminate.
Defined.

Lemma resolve_after_legacy_setUp_witness :
  defs (memories (module (freshWorld legacyModule))) = []
  ∧ imports (memories (module (freshWorld legacyModule))) ≠ []
  ∧ imports (tables (module (freshWorld legacyModule))) ≠ []
  ∧ ∃ w' memory table,
      setUp' (freshWorld legacyModule) = Ok () w'
      ∧ compartment w' !! 0 = Some (ObjMemory memory)
      ∧ compartment w' !! 1 = Some (ObjTable table)
      ∧ (∀ type resolved,
           resolve' "env" "memory" type resolved w'
           = verdict' "env" "memory" type 0 (ObjMemory memory) w'
           ∧ resolve' "env" "table" type resolved w'
             = verdict' "env" "table" type 1 (ObjTable table) w')
      ∧ ∀ moduleName exportName type resolved intrinsics,
          (moduleName = "env" ∧ intrinsics = emEnvIntrinsics
           ∧ exportName ≠ "memory" ∧ exportName ≠ "table")
          ∨ (moduleName = "asm2wasm" ∧ intrinsics = emAsm2wasmIntrinsics)
          ∨ ((moduleName = "global" ∨ moduleName = "global.Math")
             ∧ intrinsics = emGlobalIntrinsics) →
          match intrinsics !! exportName with
          | Some i =>
              ∃ p, compartment w' !! p = Some (ObjIntrinsic exportName i)
                 ∧ resolve' moduleName exportName type resolved w'
                   = verdict' moduleName exportName type p
                       (ObjIntrinsic exportName i) w'
          | None =>
              resolve' moduleName exportName type resolved w'
              = missing' moduleName exportName type w'
          end.
Proof.
  split; [reflexivity |]. split; [discriminate |]. split; [discriminate |].
  apply (resolve_after_legacy_setUp hasKind kindOf kindName envIntrinsics
           emEnvIntrinsics emAsm2wasmIntrinsics emGlobalIntrinsics
           (freshWorld legacyModule)).
  - reflexivity.
  - discriminate.
  - discriminate.
Defined.

Lemma setUp_legacy_other_bytes_witness :
  defs (memories (module (freshWorld legacyModule))) = []
  ∧ imports (memories (module (freshWorld legacyModule))) ≠ []
  ∧ imports (tables (module (freshWorld legacyModule))) ≠ []
  ∧ ∃ w' memory,
      setUp' (freshWorld legacyModule) = Ok () w'
      ∧ compartment w' !! 0 = Some (ObjMemory memory)
      ∧ (∀ a, ¬ assignedGlobalsByte a → memoryBytes memory !! a = None)
      ∧ load 0 8 (MutableGlobals.address + MutableGlobals.offset_tempDoublePtr) w'
        = Some 0%Z.
Proof.
  split; [reflexivity |]. split; [discriminate |]. split; [discriminate |].
  apply (setUp_legacy_other_bytes envIntrinsics emEnvIntrinsics
           emAsm2wasmIntrinsics emGlobalIntrinsics (freshWorld legacyModule)).
  - reflexivity.
  - discriminate.
  - discriminate.
Defined.
